(** * A shallow embedding of [src/particle_filter.cpp]

    The particle filter of the kidnapped-vehicle project: [init],
    [prediction], [updateWeights] (with its helpers
    [GetLandmarksWithinSensorRange], [ConvertToParticleCoordinates],
    [dataAssociation], [UpdateParticleWeight]) and [resample].

    - The C++ [double] is an abstract carrier [F] with the operations the
      source applies to it (class [Double]) and the [<cmath>] functions it
      calls (class [Libm]).  Two carriers are provided: the real numbers,
      on which the numeric statements are proved, and binary64 floats, on
      which the comparison-and-square-root fragment runs.
    - [<random>] is explicit state passing over a generator state [G].
    - A [std::vector] is a [list]; [v[i]] outside the vector is undefined
      behaviour in C++ and is the outcome [Undefined] here. *)

From Stdlib Require Import ZArith List Reals Lra Lia Bool.
From Stdlib Require PrimFloat Uint63.
From stdpp Require Import base list strings.

(** ** The number type *)

(** The arithmetic the source performs on [double] values.  [of_Z] gives
    the numeric literals of the source ([0.0], [1], [1.0], [2],
    [100000.0]); [a > b] of the source is [ltb b a]. *)
Class Double (F : Type) := {
  of_Z : Z -> F;
  add : F -> F -> F;
  sub : F -> F -> F;
  mul : F -> F -> F;
  div : F -> F -> F;
  neg : F -> F;
  ltb : F -> F -> bool;
  leb : F -> F -> bool;
  fabs : F -> F;
  fsqrt : F -> F
}.

(** The [<cmath>] functions and the constant [M_PI]. *)
Class Libm (F : Type) := {
  fsin : F -> F;
  fcos : F -> F;
  fexp : F -> F;
  M_PI : F
}.

Declare Scope double_scope.
Delimit Scope double_scope with dbl.
Notation "x + y" := (add x y) : double_scope.
Notation "x - y" := (sub x y) : double_scope.
Notation "x * y" := (mul x y) : double_scope.
Notation "x / y" := (div x y) : double_scope.
Notation "- x" := (neg x) : double_scope.
Notation "x <? y" := (ltb x y) : double_scope.
Notation "x <=? y" := (leb x y) : double_scope.
Notation "x >? y" := (ltb y x) : double_scope.

(** The same operations with another division: used to state that a
    computation does not depend on what division returns. *)
Definition with_div {F} (D : Double F) (d : F -> F -> F) : Double F :=
  {| of_Z := @of_Z F D; add := @add F D; sub := @sub F D; mul := @mul F D;
     div := d; neg := @neg F D; ltb := @ltb F D; leb := @leb F D;
     fabs := @fabs F D; fsqrt := @fsqrt F D |}.

(** *** Real numbers *)

#[global] Instance Rlt_decision : RelDecision Rlt := Rlt_dec.
#[global] Instance Rle_decision : RelDecision Rle := Rle_dec.

#[global] Instance R_double : Double R := {|
  of_Z := IZR;
  add := Rplus; sub := Rminus; mul := Rmult; div := Rdiv; neg := Ropp;
  ltb := fun a b => bool_decide (a < b)%R;
  leb := fun a b => bool_decide (a <= b)%R;
  fabs := Rabs;
  fsqrt := sqrt
|}.

#[global] Instance R_libm : Libm R := {|
  fsin := sin; fcos := cos; fexp := exp; M_PI := PI
|}.

(** *** Binary64 floats *)

Definition float_of_Z (z : Z) : PrimFloat.float :=
  if (z <? 0)%Z then PrimFloat.opp (PrimFloat.of_uint63 (Uint63.of_Z (- z)))
  else PrimFloat.of_uint63 (Uint63.of_Z z).

#[global] Instance float_double : Double PrimFloat.float := {|
  of_Z := float_of_Z;
  add := PrimFloat.add; sub := PrimFloat.sub; mul := PrimFloat.mul;
  div := PrimFloat.div; neg := PrimFloat.opp;
  ltb := PrimFloat.ltb; leb := PrimFloat.leb;
  fabs := PrimFloat.abs;
  fsqrt := PrimFloat.sqrt
|}.

(** ** Random numbers *)

(** [<random>], by state passing.  [G] is the state of a random engine
    together with the distributions that draw from it.
    [default_random_engine] is the state of a freshly constructed
    [std::default_random_engine]; [normal_distribution m s] is one draw
    [dist(gen)] from [std::normal_distribution<double>(m, s)];
    [discrete_distribution ws] is one draw from
    [std::discrete_distribution<>(ws.begin(), ws.end())]. *)
Class Random (F G : Type) := {
  default_random_engine : G;
  normal_distribution : F -> F -> G -> F * G;
  discrete_distribution : list F -> G -> nat * G
}.

(** ** Outcomes *)

(** The error kinds the specification names (its section 7). *)
Inductive error : Set :=
| ConfigError
| NotInitializedError
| DegenerateWeightsError
| EmptyCandidateSetError.

(** What a call does: it returns, it signals an error, or it runs into
    undefined behaviour (an access outside a vector).  The source contains
    no [throw] and returns no status, so no definition below builds
    [Raised]; the constructor is what a signalled error would be. *)
Inductive outcome (A : Type) : Type :=
| Done (a : A)
| Raised (e : error)
| Undefined.
Arguments Done {A} a.
Arguments Raised {A} e.
Arguments Undefined {A}.

Definition bind {A B} (m : outcome A) (k : A -> outcome B) : outcome B :=
  match m with
  | Done a => k a
  | Raised e => Raised e
  | Undefined => Undefined
  end.

Notation "'let*' x ':=' m 'in' k" := (bind m (fun x => k))
  (at level 10, x name, m at level 200, k at level 200,
   format "'[v' 'let*'  x  ':='  m  'in' '/' k ']'").

(** A call that signals no error. *)
Definition raises_nothing {A} (m : outcome A) : Prop :=
  forall e, m <> Raised e.

(** [v[i]] as an rvalue ([load]) and the assignment [v[i] = x] ([store]). *)
Definition load {A} (i : nat) (v : list A) : outcome A :=
  match v !! i with
  | Some a => Done a
  | None => Undefined
  end.

Definition store {A} (i : nat) (x : A) (v : list A) : outcome (list A) :=
  if decide (i < length v) then Done (<[i := x]> v) else Undefined.

(** [for (int i = from; i < from + n; i++) body], on a state [S]. *)
Fixpoint for_loop {S} (body : nat -> S -> outcome S) (n from : nat) (s : S)
  : outcome S :=
  match n with
  | O => Done s
  | Datatypes.S n' => let* s' := body from s in for_loop body n' (Datatypes.S from) s'
  end.

(** A loop over the elements of a vector that rewrites each element. *)
Fixpoint for_each {A B} (f : A -> outcome B) (v : list A) : outcome (list B) :=
  match v with
  | [] => Done []
  | a :: rest => let* b := f a in let* bs := for_each f rest in Done (b :: bs)
  end.

(** ** Data *)

Section Model.
Context {F : Type} {D : Double F} {L : Libm F} {G : Type} {Rnd : Random F G}.

(** Modelled from the spec: [struct Particle] is declared in
    [particle_filter.h], which is not among the sources; the fields are
    those the source accesses ([id], [x], [y], [theta], [weight]) and the
    specification lists for a particle. *)
Record Particle := mkParticle {
  p_id : Z; p_x : F; p_y : F; p_theta : F; p_weight : F
}.

(** Modelled from the spec: [struct LandmarkObs] is declared in
    [helper_functions.h], which is not among the sources; an observation
    is an identifier and two coordinates ([id], [x], [y]). *)
Record LandmarkObs := mkObs { o_id : Z; o_x : F; o_y : F }.

(** Modelled from the spec: [Map::single_landmark_s] is declared in
    [map.h], which is not among the sources; a landmark is an identifier
    and a position ([id_i], [x_f], [y_f]).  The source reads the
    coordinates through a cast to [double], taken to be exact. *)
Record single_landmark_s := mkLandmark { id_i : Z; x_f : F; y_f : F }.

Record Map := mkMap { landmark_list : list single_landmark_s }.

(** Modelled from the spec: [class ParticleFilter] is declared in
    [particle_filter.h], which is not among the sources; its members are
    those the source uses.  [int num_particles] is a [nat]: the source
    assigns it 75 and only counts up to it. *)
Record ParticleFilter := mkFilter {
  num_particles : nat;
  is_initialized : bool;
  particles : list Particle;
  weights : list F
}.

Definition set_weight (w : F) (p : Particle) : Particle :=
  mkParticle (p_id p) (p_x p) (p_y p) (p_theta p) w.

Definition set_particles (ps : list Particle) (pf : ParticleFilter) :=
  mkFilter (num_particles pf) (is_initialized pf) ps (weights pf).

Definition set_weights (ws : list F) (pf : ParticleFilter) :=
  mkFilter (num_particles pf) (is_initialized pf) (particles pf) ws.

(** Value-initialised elements, as [vector::resize] appends them. *)
Definition Particle_zero : Particle :=
  mkParticle 0 (of_Z 0) (of_Z 0) (of_Z 0) (of_Z 0).

(** Modelled from the spec: [dist] is declared in [helper_functions.h],
    which is not among the sources; the specification calls it the
    Euclidean distance between [(x1, y1)] and [(x2, y2)]. *)
Definition dist (x1 y1 x2 y2 : F) : F :=
  fsqrt ((x2 - x1) * (x2 - x1) + (y2 - y1) * (y2 - y1))%dbl.

(** ** [ParticleFilter::dataAssociation] *)

(** The inner loop over [j]: [distance_so_far] and [closest] after the
    candidates [predicted[j], predicted[j+1], ...] have been compared. *)
Fixpoint closest_loop (x y : F) (predicted : list LandmarkObs) (j : nat)
    (distance_so_far : F) (closest : nat) : F * nat :=
  match predicted with
  | [] => (distance_so_far, closest)
  | pj :: rest =>
      let curr_dist := dist x y (o_x pj) (o_y pj) in
      if (curr_dist <? distance_so_far)%dbl
      then closest_loop x y rest (S j) curr_dist j
      else closest_loop x y rest (S j) distance_so_far closest
  end.

Definition find_closest (predicted : list LandmarkObs) (o : LandmarkObs) : nat :=
  snd (closest_loop (o_x o) (o_y o) predicted 0 (of_Z 100000) 0).

(** The body of the outer loop for one observation. *)
Definition associate (predicted : list LandmarkObs) (o : LandmarkObs)
  : outcome LandmarkObs :=
  let closest := find_closest predicted o in
  let* m := load closest predicted in
  Done (mkObs (Z.of_nat closest) (o_x m) (o_y m)).

Definition dataAssociation (predicted observations : list LandmarkObs)
  : outcome (list LandmarkObs) :=
  for_each (associate predicted) observations.

(** What [associate] leaves in the observation when the selected index
    lies within [predicted]. *)
Definition matched (predicted : list LandmarkObs) (o : LandmarkObs) : LandmarkObs :=
  let closest := find_closest predicted o in
  match predicted !! closest with
  | Some m => mkObs (Z.of_nat closest) (o_x m) (o_y m)
  | None => o
  end.

(** ** [GetLandmarksWithinSensorRange] *)

(** The landmarks within [sensor_range] of the particle are pushed onto
    [remaining_landmarks], in map order. *)
Fixpoint GetLandmarksWithinSensorRange (curr_p : Particle)
    (map_landmarks : list single_landmark_s) (sensor_range : F)
    (remaining_landmarks : list LandmarkObs) : list LandmarkObs :=
  match map_landmarks with
  | [] => remaining_landmarks
  | lm :: rest =>
      let curr_dist := dist (p_x curr_p) (p_y curr_p) (x_f lm) (y_f lm) in
      if (curr_dist <=? sensor_range)%dbl
      then GetLandmarksWithinSensorRange curr_p rest sensor_range
             (remaining_landmarks ++ [mkObs (id_i lm) (x_f lm) (y_f lm)])
      else GetLandmarksWithinSensorRange curr_p rest sensor_range
             remaining_landmarks
  end.

(** ** [ConvertToParticleCoordinates] *)

(** [transformed_observations] is resized to the number of observations
    and every element is then assigned all three fields, so the result is
    the observations mapped one by one. *)
Definition ConvertToParticleCoordinates (current_particle : Particle)
    (observations : list LandmarkObs) : list LandmarkObs :=
  let xt := p_x current_particle in
  let yt := p_y current_particle in
  let theta := p_theta current_particle in
  map (fun o =>
         let x := o_x o in
         let y := o_y o in
         mkObs (o_id o)
               (xt + x * fcos theta - y * fsin theta)%dbl
               (yt + x * fsin theta + y * fcos theta)%dbl)
      observations.

(** ** [UpdateParticleWeight] *)

(** The loop over [i < observations.size()]; it reads
    [transformed_observations[i]]. *)
Fixpoint weight_loop (l1 sigmax sigmay : F) (observations : list LandmarkObs)
    (i : nat) (transformed_observations : list LandmarkObs)
    (updated_weight : F) : outcome F :=
  match observations with
  | [] => Done updated_weight
  | o :: rest =>
      let x := o_x o in
      let y := o_y o in
      let* m := load i transformed_observations in
      let mux := o_x m in
      let muy := o_y m in
      let l2 := (((x - mux) * (x - mux)) / (of_Z 2 * sigmax * sigmax))%dbl in
      let l3 := (((y - muy) * (y - muy)) / (of_Z 2 * sigmay * sigmay))%dbl in
      let l4 := fexp (- (l2 + l3))%dbl in
      let temp_weight := (l1 * l4)%dbl in
      weight_loop l1 sigmax sigmay rest (S i) transformed_observations
        (updated_weight * temp_weight)%dbl
  end.

Definition UpdateParticleWeight (curr_p : Particle) (particle_index : nat)
    (std_landmark : F * F) (observations transformed_observations : list LandmarkObs)
  : outcome Particle :=
  let updated_weight := of_Z 1 in
  let sigmax := fst std_landmark in
  let sigmay := snd std_landmark in
  let l1 := (of_Z 1 / (of_Z 2 * M_PI * sigmax * sigmay))%dbl in
  let* updated_weight :=
    weight_loop l1 sigmax sigmay observations 0 transformed_observations
      updated_weight in
  Done (set_weight updated_weight curr_p).

(** ** [ParticleFilter::updateWeights] *)

(** Steps 1 to 4 of the loop body, for the particle [curr_p = &particles[i]]. *)
Definition weigh_particle (sensor_range : F) (std_landmark : F * F)
    (observations : list LandmarkObs) (map_landmarks : Map)
    (i : nat) (curr_p : Particle) : outcome Particle :=
  let remaining_landmarks :=
    GetLandmarksWithinSensorRange curr_p (landmark_list map_landmarks)
      sensor_range [] in
  let converted_observations :=
    ConvertToParticleCoordinates curr_p observations in
  let chosen_matched_observations := converted_observations in
  let* chosen_matched_observations :=
    dataAssociation remaining_landmarks chosen_matched_observations in
  UpdateParticleWeight curr_p i std_landmark converted_observations
    chosen_matched_observations.

Definition updateWeights_body (sensor_range : F) (std_landmark : F * F)
    (observations : list LandmarkObs) (map_landmarks : Map)
    (i : nat) (pf : ParticleFilter) : outcome ParticleFilter :=
  let* curr_p := load i (particles pf) in
  let* curr_p' :=
    weigh_particle sensor_range std_landmark observations map_landmarks i curr_p in
  let* ps := store i curr_p' (particles pf) in
  let* ws := store i (p_weight curr_p') (weights pf) in
  Done (mkFilter (num_particles pf) (is_initialized pf) ps ws).

Definition updateWeights (sensor_range : F) (std_landmark : F * F)
    (observations : list LandmarkObs) (map_landmarks : Map)
    (pf : ParticleFilter) : outcome ParticleFilter :=
  for_loop (updateWeights_body sensor_range std_landmark observations map_landmarks)
    (num_particles pf) 0 pf.

(** ** Draws *)

(** Three successive draws, as [init] and [prediction] make them for one
    particle. *)
Definition draw3 (m1 s1 m2 s2 m3 s3 : F) (gen : G) : (F * F * F) * G :=
  let (a, gen) := normal_distribution m1 s1 gen in
  let (b, gen) := normal_distribution m2 s2 gen in
  let (c, gen) := normal_distribution m3 s3 gen in
  ((a, b, c), gen).

(** ** [ParticleFilter::init] *)

Definition init_body (x y theta std_x std_y std_theta : F) (i : nat)
    (s : G * ParticleFilter) : outcome (G * ParticleFilter) :=
  let (gen, pf) := s in
  let (sample, gen) := draw3 x std_x y std_y theta std_theta gen in
  let '(sx, sy, stheta) := sample in
  let* ps := store i (mkParticle (Z.of_nat i) sx sy stheta (of_Z 1)) (particles pf) in
  let* ws := store i (of_Z 1) (weights pf) in
  Done (gen, mkFilter (num_particles pf) (is_initialized pf) ps ws).

Definition init (x y theta : F) (std : F * F * F) (pf : ParticleFilter)
  : outcome ParticleFilter :=
  let gen := default_random_engine in
  let pf := mkFilter 75 (is_initialized pf) (particles pf) (weights pf) in
  let pf := set_particles (resize (num_particles pf) Particle_zero (particles pf)) pf in
  let pf := set_weights (resize (num_particles pf) (of_Z 0) (weights pf)) pf in
  let '(std_x, std_y, std_theta) := std in
  let* s := for_loop (init_body x y theta std_x std_y std_theta)
              (num_particles pf) 0 (gen, pf) in
  let pf := snd s in
  Done (mkFilter (num_particles pf) true (particles pf) (weights pf)).

(** ** [ParticleFilter::prediction] *)

(** The [if]/[else] of the loop body: the pose before noise is added. *)
Definition motion (delta_t velocity yaw_rate : F) (p : Particle) : F * F * F :=
  let theta_0 := p_theta p in
  if (fabs yaw_rate >? of_Z 0)%dbl then
    (p_x p + (velocity / yaw_rate) * (fsin (theta_0 + yaw_rate * delta_t) - fsin theta_0),
     p_y p + (velocity / yaw_rate) * (fcos theta_0 - fcos (theta_0 + yaw_rate * delta_t)),
     p_theta p + yaw_rate * delta_t)%dbl
  else
    (p_x p + velocity * delta_t * fcos theta_0,
     p_y p + velocity * delta_t * fsin theta_0,
     p_theta p)%dbl.

(** The particle written back: pose plus noise, weight 1, same id. *)
Definition moved (delta_t velocity yaw_rate : F) (p : Particle)
    (noise : F * F * F) : Particle :=
  let '(particle_x, particle_y, particle_theta) :=
    motion delta_t velocity yaw_rate p in
  let '(noise_x, noise_y, noise_theta) := noise in
  mkParticle (p_id p) (particle_x + noise_x)%dbl (particle_y + noise_y)%dbl
    (particle_theta + noise_theta)%dbl (of_Z 1).

Definition prediction_body (delta_t std_x std_y std_yaw velocity yaw_rate : F)
    (i : nat) (s : G * ParticleFilter) : outcome (G * ParticleFilter) :=
  let (gen, pf) := s in
  let* p := load i (particles pf) in
  let (noise, gen) :=
    draw3 (of_Z 0) std_x (of_Z 0) std_y (of_Z 0) std_yaw gen in
  let* ps := store i (moved delta_t velocity yaw_rate p noise) (particles pf) in
  let* ws := store i (of_Z 1) (weights pf) in
  Done (gen, mkFilter (num_particles pf) (is_initialized pf) ps ws).

Definition prediction (delta_t : F) (std_pos : F * F * F)
    (velocity yaw_rate : F) (pf : ParticleFilter) : outcome ParticleFilter :=
  let gen := default_random_engine in
  let '(std_x, std_y, std_yaw) := std_pos in
  let* s := for_loop (prediction_body delta_t std_x std_y std_yaw velocity yaw_rate)
              (num_particles pf) 0 (gen, pf) in
  Done (snd s).

(** ** [ParticleFilter::resample] *)

(** [gen] is the [std::mt19937] seeded from [std::random_device]: the seed
    comes from outside the program, so it is an argument. *)
Definition resample_body (pf : ParticleFilter) (i : nat)
    (s : G * (list Particle * list F)) : outcome (G * (list Particle * list F)) :=
  let '(gen, (particles_temp, weights_temp)) := s in
  let (index, gen) := discrete_distribution (weights pf) gen in
  let* p := load index (particles pf) in
  let* weights_temp := store i (p_weight p) weights_temp in
  let* particles_temp := store i p particles_temp in
  Done (gen, (particles_temp, weights_temp)).

Definition resample (gen : G) (pf : ParticleFilter) : outcome ParticleFilter :=
  let particles_temp := resize (num_particles pf) Particle_zero [] in
  let weights_temp := resize (num_particles pf) (of_Z 0) [] in
  let* s := for_loop (resample_body pf) (num_particles pf) 0
              (gen, (particles_temp, weights_temp)) in
  let '(_, (particles_temp, weights_temp)) := s in
  Done (mkFilter (num_particles pf) (is_initialized pf) particles_temp weights_temp).

End Model.

(** ** Specification vocabulary *)

Section Vocabulary.
Context {F : Type} {D : Double F} {L : Libm F} {G : Type} {Rnd : Random F G}.

(** The parallel-array invariant of the particle set: both vectors have
    [num_particles] elements and [weights[i]] is [particles[i].weight]. *)
Definition wf (pf : @ParticleFilter F) : Prop :=
  length (particles pf) = num_particles pf /\
  weights pf = map p_weight (particles pf).

(** The state of [updateWeights] after the first [i] particles of [pf0]
    have been weighed: they carry their new weight, mirrored in [weights];
    everything else is as in [pf0]. *)
Definition weighed_upto (sensor_range : F) (std_landmark : F * F)
    (observations : list LandmarkObs) (map_landmarks : Map)
    (pf0 : @ParticleFilter F) (i : nat) (s : @ParticleFilter F) : Prop :=
  num_particles s = num_particles pf0 /\
  is_initialized s = is_initialized pf0 /\
  length (particles s) = length (particles pf0) /\
  length (weights s) = length (weights pf0) /\
  (forall j, j < i ->
     exists p p', particles pf0 !! j = Some p /\
       weigh_particle sensor_range std_landmark observations map_landmarks j p
         = Done p' /\
       particles s !! j = Some p' /\ weights s !! j = Some (p_weight p')) /\
  (forall j, i <= j ->
     particles s !! j = particles pf0 !! j /\
     weights s !! j = weights pf0 !! j).

(** The generator state after [k] rounds of the draw [f]. *)
Definition after {A} (f : G -> A * G) (k : nat) (gen : G) : G :=
  Nat.iter k (fun g => snd (f g)) gen.

(** The noise triple [prediction] draws for particle [i]. *)
Definition prediction_noise (std_pos : F * F * F) (i : nat) : F * F * F :=
  let '(std_x, std_y, std_yaw) := std_pos in
  let draw := draw3 (of_Z 0) std_x (of_Z 0) std_y (of_Z 0) std_yaw in
  fst (draw (after draw i default_random_engine)).

(** The index [resample] draws for position [i] of the new generation. *)
Definition resample_index (pf : @ParticleFilter F) (gen : G) (i : nat) : nat :=
  let draw := discrete_distribution (weights pf) in
  fst (draw (after draw i gen)).

(** The pose [init] draws for particle [i]. *)
Definition init_sample (x y theta : F) (std : F * F * F) (i : nat) : F * F * F :=
  let '(std_x, std_y, std_theta) := std in
  let draw := draw3 x std_x y std_y theta std_theta in
  fst (draw (after draw i default_random_engine)).

(** The state of [prediction] after the first [i] particles of [pf0] have
    been moved. *)
Definition moved_upto (delta_t : F) (std_pos : F * F * F) (velocity yaw_rate : F)
    (pf0 : @ParticleFilter F) (i : nat) (s : @ParticleFilter F) : Prop :=
  num_particles s = num_particles pf0 /\
  is_initialized s = is_initialized pf0 /\
  length (particles s) = length (particles pf0) /\
  length (weights s) = length (weights pf0) /\
  (forall j, j < i ->
     exists p, particles pf0 !! j = Some p /\
       particles s !! j =
         Some (moved delta_t velocity yaw_rate p (prediction_noise std_pos j)) /\
       weights s !! j = Some (of_Z 1)) /\
  (forall j, i <= j ->
     particles s !! j = particles pf0 !! j /\
     weights s !! j = weights pf0 !! j).

(** The temporaries of [resample] after [i] draws from [pf]. *)
Definition drawn_upto (pf : @ParticleFilter F) (gen : G) (i : nat)
    (particles_temp : list (@Particle F)) (weights_temp : list F) : Prop :=
  length particles_temp = num_particles pf /\
  length weights_temp = num_particles pf /\
  forall j, j < i ->
    exists p, particles pf !! resample_index pf gen j = Some p /\
      particles_temp !! j = Some p /\ weights_temp !! j = Some (p_weight p).

(** The loop state of [resample] after [i] draws: generator and
    temporaries. *)
Definition resample_inv (pf : @ParticleFilter F) (gen : G) (i : nat)
    (t : G * (list (@Particle F) * list F)) : Prop :=
  t.1 = after (discrete_distribution (weights pf)) i gen /\
  drawn_upto pf gen i t.2.1 t.2.2.

(** The states the four public operations can produce, starting from any
    object on which [init] is called. *)
Inductive reachable : @ParticleFilter F -> Prop :=
| reach_init x y theta std pf0 pf :
    init x y theta std pf0 = Done pf -> reachable pf
| reach_prediction delta_t std_pos velocity yaw_rate pf pf' :
    reachable pf ->
    prediction delta_t std_pos velocity yaw_rate pf = Done pf' ->
    reachable pf'
| reach_updateWeights sensor_range std_landmark observations map_landmarks pf pf' :
    reachable pf ->
    updateWeights sensor_range std_landmark observations map_landmarks pf = Done pf' ->
    reachable pf'
| reach_resample gen pf pf' :
    reachable pf ->
    resample gen pf = Done pf' ->
    reachable pf'.

End Vocabulary.

(** *** Over the real numbers *)

(** Distance from an observation to a candidate. *)
Definition distance (o c : @LandmarkObs R) : R :=
  dist (o_x o) (o_y o) (o_x c) (o_y c).

(** [k] is the index of a candidate nearest to [o], and the first such. *)
Definition first_nearest (predicted : list (@LandmarkObs R))
    (o : @LandmarkObs R) (k : nat) : Prop :=
  exists ck, predicted !! k = Some ck /\
    forall j cj, predicted !! j = Some cj ->
      (distance o ck <= distance o cj)%R /\
      (j < k -> (distance o ck < distance o cj)%R).

(** The motion model in the words of the specification (its section 4.2). *)
Definition closed_form (delta_t v omega x y theta : R) : R * R * R :=
  if Rlt_dec 0 (Rabs omega) then
    (x + (v / omega) * (sin (theta + omega * delta_t) - sin theta),
     y + (v / omega) * (cos theta - cos (theta + omega * delta_t)),
     theta + omega * delta_t)%R
  else
    (x + v * delta_t * cos theta,
     y + v * delta_t * sin theta,
     theta)%R.

(** The bivariate Gaussian density of the specification (its section 4.6)
    and its product over observations paired with their matched means. *)
Definition gaussian_density (sigma_x sigma_y : R) (o mu : @LandmarkObs R) : R :=
  (1 / (2 * PI * sigma_x * sigma_y)
   * exp (- ((o_x o - o_x mu) ^ 2) / (2 * sigma_x ^ 2)
          - ((o_y o - o_y mu) ^ 2) / (2 * sigma_y ^ 2)))%R.

Fixpoint likelihood (sigma_x sigma_y : R)
    (observations means : list (@LandmarkObs R)) : R :=
  match observations, means with
  | o :: observations', mu :: means' =>
      (gaussian_density sigma_x sigma_y o mu
       * likelihood sigma_x sigma_y observations' means')%R
  | _, _ => 1%R
  end.

(** *** A scripted generator *)

(** A generator for running the model on examples: a normal draw returns
    its mean (the draw of a distribution without spread) and a discrete
    draw returns the next index of a script, 0 when the script is over. *)
#[global] Instance scripted (F : Type) : Random F (list nat) := {|
  default_random_engine := [];
  normal_distribution := fun m _ gen => (m, gen);
  discrete_distribution := fun _ gen =>
    match gen with
    | [] => (0, [])
    | k :: gen' => (k, gen')
    end
|}.

(** ** Example inputs *)

(** Two candidates on the x axis, the second nearer to the origin than the
    first, and both farther away than the bound [100000.0] that
    [dataAssociation] starts its search from. *)
Definition far_candidates {F} {D : Double F} : list (@LandmarkObs F) :=
  [mkObs 1 (of_Z 300000) (of_Z 0); mkObs 2 (of_Z 200000) (of_Z 0)].

Definition origin_observation {F} {D : Double F} : @LandmarkObs F :=
  mkObs 0 (of_Z 0) (of_Z 0).

(** A filter of one particle at the origin, heading along the x axis. *)
Definition one_particle : @ParticleFilter R :=
  mkFilter 1 true [mkParticle 0 0%R 0%R 0%R 1%R] [1%R].

(** A map of one landmark, at the origin, and one observation of it as
    the vehicle sees it from there. *)
Definition origin_map : @Map R := mkMap [mkLandmark 7 0%R 0%R].

(** Two particles whose weights are all zero. *)
Definition starved : @ParticleFilter R :=
  mkFilter 2 true
    [mkParticle 0 1%R 2%R 3%R 0%R; mkParticle 1 4%R 5%R 6%R 0%R]
    [0%R; 0%R].

(** Two particles of which only the second has weight: every draw
    proportional to weight returns index 1. *)
Definition second_heavy : @ParticleFilter R :=
  mkFilter 2 true
    [mkParticle 0 1%R 2%R 3%R 0%R; mkParticle 1 4%R 5%R 6%R 1%R]
    [0%R; 1%R].

(** Three candidates and two observations, on binary64 numbers.  The
    first observation is at computed distance 5 of the first candidate and 2
    of each of the other two; the second observation is nearest to the
    first candidate. *)
Definition three_candidates : list (@LandmarkObs PrimFloat.float) :=
  [mkObs 5 (of_Z 3) (of_Z 4); mkObs 6 (of_Z 0) (of_Z 2); mkObs 7 (of_Z 2) (of_Z 0)].

Definition two_observations : list (@LandmarkObs PrimFloat.float) :=
  [mkObs 0 (of_Z 0) (of_Z 0); mkObs 0 (of_Z 3) (of_Z 3)].

(** ** Vocabulary for further properties *)

Section MoreVocabulary.
Context {F : Type} {D : Double F}.

(** The test [curr_dist <= sensor_range] of [GetLandmarksWithinSensorRange]
    for one landmark, and the [LandmarkObs] it pushes. *)
Definition within_range (curr_p : @Particle F) (sensor_range : F)
    (lm : @single_landmark_s F) : bool :=
  (dist (p_x curr_p) (p_y curr_p) (x_f lm) (y_f lm) <=? sensor_range)%dbl.

Definition as_observation (lm : @single_landmark_s F) : @LandmarkObs F :=
  mkObs (id_i lm) (x_f lm) (y_f lm).

(** An observation that carries the index and the coordinates of a
    candidate. *)
Definition names_candidate (predicted : list (@LandmarkObs F))
    (r : @LandmarkObs F) : Prop :=
  exists k c, o_id r = Z.of_nat k /\ predicted !! k = Some c /\
    o_x r = o_x c /\ o_y r = o_y c.

(** The value [curr_dist] that the search of [dataAssociation] computes
    for an observation and a candidate. *)
Definition curr_dist (o c : @LandmarkObs F) : F :=
  dist (o_x o) (o_y o) (o_x c) (o_y c).

(** The values the search compares for an observation: the initial bound
    and the computed distance to every candidate. *)
Definition compared (predicted : list (@LandmarkObs F)) (o : @LandmarkObs F)
  : list F :=
  of_Z 100000 :: map (curr_dist o) predicted.

(** [<] of the carrier orders the values [vs]: among them no value is
    below itself, [<] is transitive, and a value below another is below
    any third value or that third value is below the other. *)
Definition ordered (vs : list F) : Prop :=
  forall a b c, a ∈ vs -> b ∈ vs -> c ∈ vs ->
    ltb a a = false /\
    (ltb a b = true -> ltb b c = true -> ltb a c = true) /\
    (ltb a b = true -> ltb a c = true \/ ltb c b = true).

(** No candidate is computed nearer to [o] than candidate [k], and every
    candidate before [k] is computed farther. *)
Definition first_nearest_computed (predicted : list (@LandmarkObs F))
    (o : @LandmarkObs F) (k : nat) : Prop :=
  exists ck, predicted !! k = Some ck /\
    forall j cj, predicted !! j = Some cj ->
      ltb (curr_dist o cj) (curr_dist o ck) = false /\
      (j < k -> ltb (curr_dist o ck) (curr_dist o cj) = true).

(** The computed distance tells the candidates apart: seen from any
    candidate [c], the distances are ordered, [c] is within the bound of
    itself, and a candidate that is not computed farther from [c] than [c]
    itself has the coordinates of [c]. *)
Definition separated (predicted : list (@LandmarkObs F)) : Prop :=
  forall c, c ∈ predicted ->
    ordered (compared predicted c) /\
    ltb (curr_dist c c) (of_Z 100000) = true /\
    forall c', c' ∈ predicted ->
      ltb (curr_dist c c) (curr_dist c c') = false ->
      o_x c' = o_x c /\ o_y c' = o_y c.

End MoreVocabulary.

(** ** [ParticleFilter::write] *)

Section Write.
Context {F : Type}.

(** [<fstream>], as far as [write] uses it.  [show d] is the text
    [dataFile << d] prints for a [double]; [opened] tells whether
    [dataFile.open(filename, std::ios::app)] succeeded (on a stream that
    failed to open every [<<] does nothing, and the source does not look);
    [content] is what the file holds before the call, nothing when it did
    not exist.  The result is what the file holds after [close]. *)
Variable show : F -> string.

Definition newline : string := String (Ascii.ascii_of_nat 10) "".

(** The text one iteration sends to the stream. *)
Definition write_line (p : @Particle F) : string :=
  show (p_x p) +:+ " " +:+ show (p_y p) +:+ " " +:+ show (p_theta p) +:+ newline.

Definition write_body (opened : bool) (pf : @ParticleFilter F) (i : nat)
    (content : string) : outcome string :=
  let* p := load i (particles pf) in
  Done (if opened then content +:+ write_line p else content).

Definition write (opened : bool) (content : string) (pf : @ParticleFilter F)
  : outcome string :=
  for_loop (write_body opened pf) (num_particles pf) 0 content.

(** The lines of a sequence of particles, one after the other. *)
Fixpoint write_lines (ps : list (@Particle F)) : string :=
  match ps with
  | [] => ""
  | p :: rest => write_line p +:+ write_lines rest
  end.

End Write.

(** Case analysis on a member of a list given by its elements. *)
Ltac each_member H :=
  repeat (apply elem_of_cons in H as [-> | H]); [.. | inversion H].

(** * Verification *)

(** ** Outcomes, vector accesses and loops *)

Lemma Done_raises_nothing {A} (a : A) : raises_nothing (Done a).
Proof. intros e; discriminate. Qed.


Lemma bind_Done_inv {A B} (m : outcome A) (k : A -> outcome B) (b : B) :
  bind m k = Done b -> exists a, m = Done a /\ k a = Done b.
Proof. destruct m as [a| |]; simpl; intros H; try discriminate; eauto. Qed.

Lemma bind_raises_nothing {A B} (m : outcome A) (k : A -> outcome B) :
  raises_nothing m -> (forall a, raises_nothing (k a)) ->
  raises_nothing (bind m k).
Proof.
  intros Hm Hk e. destruct m as [a| e'|]; simpl.
  - apply Hk.
  - destruct (Hm e'). reflexivity.
  - discriminate.
Qed.

Lemma load_Done {A} (i : nat) (v : list A) (a : A) :
  load i v = Done a <-> v !! i = Some a.
Proof.
  unfold load. destruct (v !! i); split; intros H; try discriminate; congruence.
Qed.

Lemma load_lookup {A} (i : nat) (v : list A) (a : A) :
  v !! i = Some a -> load i v = Done a.
Proof. apply load_Done. Qed.

Lemma load_raises_nothing {A} (i : nat) (v : list A) : raises_nothing (load i v).
Proof. intros e. unfold load. destruct (v !! i); discriminate. Qed.

Lemma store_in_range {A} (i : nat) (x : A) (v : list A) :
  i < length v -> store i x v = Done (<[i := x]> v).
Proof. intros H. unfold store. destruct (decide (i < length v)); [reflexivity | lia]. Qed.

Lemma store_Done {A} (i : nat) (x : A) (v v' : list A) :
  store i x v = Done v' -> i < length v /\ v' = <[i := x]> v.
Proof.
  unfold store. destruct (decide (i < length v)); intros H; [|discriminate].
  split; [assumption | congruence].
Qed.

Lemma store_raises_nothing {A} (i : nat) (x : A) (v : list A) :
  raises_nothing (store i x v).
Proof. intros e. unfold store. destruct (decide (i < length v)); discriminate. Qed.

Lemma for_each_raises_nothing {A B} (f : A -> outcome B) (v : list A) :
  (forall a, raises_nothing (f a)) -> raises_nothing (for_each f v).
Proof.
  intros Hf. induction v as [|a v IH]; simpl.
  - apply Done_raises_nothing.
  - apply bind_raises_nothing; [apply Hf | intros b].
    apply bind_raises_nothing; [exact IH | intros bs; apply Done_raises_nothing].
Qed.

Lemma for_each_Done {A B} (f : A -> outcome B) (g : A -> B) (v : list A) :
  (forall a, a ∈ v -> f a = Done (g a)) -> for_each f v = Done (map g v).
Proof.
  induction v as [|a v IH]; intros Hf; simpl; [reflexivity|].
  rewrite Hf by apply list_elem_of_here. simpl.
  rewrite IH; [reflexivity|].
  intros a' Ha'. apply Hf. apply list_elem_of_further. exact Ha'.
Qed.


Section Loops.
Context {S : Type}.
Implicit Types (body : nat -> S -> outcome S) (I : nat -> S -> Prop).

(** Total correctness of a counted loop from an invariant. *)
Lemma for_loop_total I body n from s :
  I from s ->
  (forall i t, from <= i < from + n -> I i t ->
     exists t', body i t = Done t' /\ I (Datatypes.S i) t') ->
  exists s', for_loop body n from s = Done s' /\ I (from + n) s'.
Proof.
  revert from s. induction n as [|n IH]; intros from s H0 Hstep; simpl.
  - exists s. rewrite Nat.add_0_r. auto.
  - destruct (Hstep from s) as (t & Hb & Ht); [lia | assumption |].
    rewrite Hb. simpl.
    destruct (IH (Datatypes.S from) t Ht) as (s' & Hl & Hs').
    + intros i u Hi. apply Hstep. lia.
    + exists s'. split; [assumption|].
      replace (from + Datatypes.S n) with (Datatypes.S from + n) by lia.
      assumption.
Qed.

(** Partial correctness: what a loop that returned has established. *)
Lemma for_loop_inv I body n from s s' :
  for_loop body n from s = Done s' ->
  I from s ->
  (forall i t t', from <= i < from + n -> I i t -> body i t = Done t' ->
     I (Datatypes.S i) t') ->
  I (from + n) s'.
Proof.
  revert from s. induction n as [|n IH]; intros from s Hl H0 Hstep; simpl in Hl.
  - rewrite Nat.add_0_r. congruence.
  - apply bind_Done_inv in Hl as (t & Hb & Hl).
    replace (from + Datatypes.S n) with (Datatypes.S from + n) by lia.
    apply (IH (Datatypes.S from) t Hl).
    + apply (Hstep from s t); [lia | assumption | assumption].
    + intros i u u' Hi. apply Hstep. lia.
Qed.

Lemma for_loop_raises_nothing body n from s :
  (forall i t, raises_nothing (body i t)) ->
  raises_nothing (for_loop body n from s).
Proof.
  intros Hb. revert from s. induction n as [|n IH]; intros from s; simpl.
  - apply Done_raises_nothing.
  - apply bind_raises_nothing; [apply Hb | intros t; apply IH].
Qed.

(** Two loops whose bodies agree on the indices they visit agree. *)
Lemma for_loop_ext body body' n from s :
  (forall i t, from <= i < from + n -> body i t = body' i t) ->
  for_loop body n from s = for_loop body' n from s.
Proof.
  revert from s. induction n as [|n IH]; intros from s Hb; simpl; [reflexivity|].
  rewrite Hb by lia. destruct (body' from s) as [t| |]; simpl; try reflexivity.
  apply IH. intros i u Hi. apply Hb. lia.
Qed.

End Loops.

(** ** [dataAssociation] *)

Section Association.
Context {F : Type} {D : Double F}.
Implicit Types (predicted observations : list (@LandmarkObs F)) (o : @LandmarkObs F).

Lemma dataAssociation_raises_nothing predicted observations :
  raises_nothing (dataAssociation predicted observations).
Proof.
  apply for_each_raises_nothing. intros o. unfold associate.
  apply bind_raises_nothing; [apply load_raises_nothing|].
  intros m. apply Done_raises_nothing.
Qed.

(** The selected index is the initial one or one the loop has visited. *)
Lemma closest_loop_range x y predicted j distance_so_far closest :
  let k := snd (closest_loop x y predicted j distance_so_far closest) in
  k = closest \/ j <= k < j + length predicted.
Proof.
  revert j distance_so_far closest.
  induction predicted as [|pj rest IH]; intros j d c; simpl; [left; reflexivity|].
  destruct (ltb (dist x y (o_x pj) (o_y pj)) d).
  - destruct (IH (S j) (dist x y (o_x pj) (o_y pj)) j) as [-> | H]; right; lia.
  - destruct (IH (S j) d c) as [-> | H]; [left; reflexivity | right; lia].
Qed.

Lemma find_closest_lt predicted o :
  predicted <> [] -> find_closest predicted o < length predicted.
Proof.
  intros Hne. unfold find_closest.
  pose proof (closest_loop_range (o_x o) (o_y o) predicted 0 (of_Z 100000) 0) as H.
  simpl in H. destruct predicted; [congruence|]. simpl in *. lia.
Qed.

Lemma find_closest_single (c : @LandmarkObs F) o : find_closest [c] o = 0.
Proof. unfold find_closest. simpl. destruct (ltb _ _); reflexivity. Qed.

Lemma matched_single (c : @LandmarkObs F) o :
  matched [c] o = mkObs 0 (o_x c) (o_y c).
Proof. unfold matched. rewrite find_closest_single. reflexivity. Qed.

(** With at least one candidate every observation is rewritten. *)
Lemma dataAssociation_Done predicted observations :
  predicted <> [] ->
  dataAssociation predicted observations =
  Done (map (matched predicted) observations).
Proof.
  intros Hne. apply for_each_Done. intros o _.
  unfold associate, matched.
  destruct (lookup_lt_is_Some_2 predicted (find_closest predicted o)
              (find_closest_lt predicted o Hne)) as [m Hm].
  rewrite (load_lookup _ _ _ Hm), Hm. reflexivity.
Qed.

(** Without candidates the first observation already reads
    [predicted[0]], which does not exist. *)
Lemma dataAssociation_no_candidates o observations :
  dataAssociation [] (o :: observations) = Undefined.
Proof. reflexivity. Qed.

End Association.

(** *** Nearest neighbour, over the reals *)

Section Nearest.
Implicit Types (predicted : list (@LandmarkObs R)) (o : @LandmarkObs R).

Lemma closest_loop_cons o pj predicted j d c :
  closest_loop (o_x o) (o_y o) (pj :: predicted) j d c =
  if bool_decide (distance o pj < d)%R
  then closest_loop (o_x o) (o_y o) predicted (S j) (distance o pj) j
  else closest_loop (o_x o) (o_y o) predicted (S j) d c.
Proof. reflexivity. Qed.

Lemma closest_loop_spec o predicted j d c :
  let r := closest_loop (o_x o) (o_y o) predicted j d c in
  (forall k ck, predicted !! k = Some ck -> (fst r <= distance o ck)%R) /\
  ((snd r = c /\ fst r = d /\
    forall k ck, predicted !! k = Some ck -> (d <= distance o ck)%R) \/
   (exists k ck, snd r = j + k /\ predicted !! k = Some ck /\
      distance o ck = fst r /\ (fst r < d)%R /\
      forall k' ck', k' < k -> predicted !! k' = Some ck' ->
        (fst r < distance o ck')%R)).
Proof.
  revert j d c. induction predicted as [|pj rest IH]; intros j d c.
  - simpl. split; [intros k ck Hk; discriminate|].
    left. repeat split. intros k ck Hk. discriminate.
  - rewrite closest_loop_cons. case_bool_decide as Hlt.
    + destruct (IH (S j) (distance o pj) j) as [Hmin Hsel].
      set (r := closest_loop (o_x o) (o_y o) rest (S j) (distance o pj) j) in *.
      assert (Hle : (fst r <= distance o pj)%R).
      { destruct Hsel as [(_ & -> & _) | (k & ck & _ & _ & _ & Hlt' & _)]; lra. }
      split.
      * intros [|k] ck Hk; simpl in Hk; [congruence | eauto].
      * right. destruct Hsel as [(Hc & Hd & Hall) | (k & ck & Hc & Hk & Hd & Hlt' & Hfirst)].
        -- exists 0, pj. rewrite Hc, Hd, Nat.add_0_r.
           repeat split; [assumption | intros k' ck' Hk'; lia].
        -- exists (S k), ck. rewrite Hc.
           repeat split; [lia | exact Hk | exact Hd | lra |].
           intros [|k'] ck' Hk' Hl; simpl in Hl.
           ++ injection Hl as <-. exact Hlt'.
           ++ apply (Hfirst k'); [lia | exact Hl].
    + destruct (IH (S j) d c) as [Hmin Hsel].
      set (r := closest_loop (o_x o) (o_y o) rest (S j) d c) in *.
      assert (Hle : (fst r <= d)%R).
      { destruct Hsel as [(_ & -> & _) | (k & ck & _ & _ & _ & Hlt' & _)]; lra. }
      split.
      * intros [|k] ck Hk; simpl in Hk; [injection Hk as <-; lra | eauto].
      * destruct Hsel as [(Hc & Hd & Hall) | (k & ck & Hc & Hk & Hd & Hlt' & Hfirst)].
        -- left. repeat split; [assumption | assumption |].
           intros [|k] ck Hk; simpl in Hk; [injection Hk as <-; lra | eauto].
        -- right. exists (S k), ck. rewrite Hc.
           repeat split; [lia | exact Hk | exact Hd | exact Hlt' |].
           intros [|k'] ck' Hk' Hl; simpl in Hl.
           ++ injection Hl as <-. lra.
           ++ apply (Hfirst k'); [lia | exact Hl].
Qed.

(** When some candidate lies within the initial bound [100000.0] of the
    observation, the selected index is the first nearest candidate. *)
Lemma find_closest_first_nearest predicted o :
  (exists c, c ∈ predicted /\ (distance o c < 100000)%R) ->
  first_nearest predicted o (find_closest predicted o).
Proof.
  intros (c & Hin & Hc). apply list_elem_of_lookup in Hin as [i Hi].
  unfold find_closest.
  destruct (closest_loop_spec o predicted 0 (of_Z 100000) 0) as [Hmin Hsel].
  set (r := closest_loop (o_x o) (o_y o) predicted 0 (of_Z 100000) 0) in *.
  destruct Hsel as [(_ & _ & Hall) | (k & ck & Hk & Hck & Hd & _ & Hfirst)].
  - specialize (Hall i c Hi). simpl in Hall. lra.
  - simpl in Hk. rewrite Hk. exists ck. split; [exact Hck|].
    intros j cj Hj. rewrite Hd. split; [eauto|].
    intros Hjk. eauto.
Qed.

End Nearest.

(** *** The search bound *)

Lemma distance_on_axis (i j : Z) (a : R) :
  (0 <= a)%R -> distance (mkObs i 0%R 0%R) (mkObs j a 0%R) = a.
Proof.
  intros Ha. unfold distance, dist. simpl.
  replace ((a - 0) * (a - 0) + (0 - 0) * (0 - 0))%R with (a * a)%R by ring.
  apply sqrt_square. exact Ha.
Qed.

(** Below the bound the code meets the claim: every observation is
    rewritten to the first nearest candidate. *)
Lemma dataAssociation_nearest (predicted observations : list (@LandmarkObs R)) :
  (forall o, o ∈ observations ->
     exists c, c ∈ predicted /\ (distance o c < 100000)%R) ->
  exists result,
    dataAssociation predicted observations = Done result /\
    Forall2 (fun o r => exists k ck,
               first_nearest predicted o k /\ predicted !! k = Some ck /\
               r = mkObs (Z.of_nat k) (o_x ck) (o_y ck))
            observations result.
Proof.
  intros Hnear. destruct predicted as [|c0 predicted'] eqn:Hp.
  - destruct observations as [|o rest].
    + exists []. split; [reflexivity | constructor].
    + destruct (Hnear o) as (c & Hc & _); [apply list_elem_of_here|].
      inversion Hc.
  - rewrite <- Hp in *. exists (map (matched predicted) observations).
    split; [apply dataAssociation_Done; congruence|].
    clear Hp. induction observations as [|o rest IH]; simpl; constructor.
    + assert (Hfn := find_closest_first_nearest predicted o
                       (Hnear o (list_elem_of_here _ _))).
      destruct Hfn as (ck & Hk & Hmin).
      exists (find_closest predicted o), ck.
      split; [exists ck; auto|]. split; [exact Hk|].
      unfold matched. rewrite Hk. reflexivity.
    + apply IH. intros o' Ho'. apply Hnear. apply list_elem_of_further, Ho'.
Qed.

(** C1, at candidates beyond the bound: the search starts from
    [distance_so_far = 100000.0] and [closest = 0], no candidate compares
    below the bound, and the observation is rewritten to candidate 0
    although candidate 1 is strictly nearer. *)
Theorem dataAssociation_far_candidates :
  dataAssociation (D := R_double) far_candidates [origin_observation] =
    Done [mkObs 0 300000%R 0%R] /\
  (distance origin_observation (mkObs 2 200000%R 0%R)
   < distance origin_observation (mkObs 1 300000%R 0%R))%R /\
  ~ first_nearest far_candidates origin_observation 0.
Proof.
  assert (H3 : distance (origin_observation (D := R_double)) (mkObs 1 300000%R 0%R)
               = 300000%R) by (apply distance_on_axis; lra).
  assert (H2 : distance (origin_observation (D := R_double)) (mkObs 2 200000%R 0%R)
               = 200000%R) by (apply distance_on_axis; lra).
  split; [|split].
  - unfold dataAssociation, far_candidates. cbn [for_each].
    unfold associate, find_closest.
    change (o_x origin_observation) with (o_x (origin_observation (D := R_double))).
    rewrite !closest_loop_cons.
    cbn [of_Z R_double] in *. rewrite H3, H2.
    rewrite !bool_decide_eq_false_2 by lra. reflexivity.
  - rewrite H3, H2. lra.
  - intros (ck & Hk & Hmin). injection Hk as <-.
    destruct (Hmin 1 (mkObs 2 200000%R 0%R) eq_refl) as [Hle _].
    cbn [of_Z R_double] in *. rewrite H3, H2 in Hle. lra.
Qed.

(** The same run on binary64 numbers. *)
Lemma dataAssociation_far_candidates_binary64 :
  dataAssociation (D := float_double) far_candidates [origin_observation] =
    Done [mkObs 0 (of_Z 300000) (of_Z 0)] /\
  ltb (dist (of_Z 0) (of_Z 0) (of_Z 200000) (of_Z 0))
      (dist (of_Z 0) (of_Z 0) (of_Z 300000) (of_Z 0)) = true.
Proof. vm_compute. split; reflexivity. Qed.

(** ** [updateWeights] *)

Section UpdateWeights.
Context {F : Type} {D : Double F} {L : Libm F}.
Variables (sensor_range : F) (std_landmark : F * F)
  (observations : list (@LandmarkObs F)) (map_landmarks : @Map F).
Implicit Types (p : @Particle F) (pf : @ParticleFilter F).

Lemma GetLandmarksWithinSensorRange_set_weight (w : F) p
    (landmarks : list (@single_landmark_s F)) (range : F) remaining :
  GetLandmarksWithinSensorRange (set_weight w p) landmarks range remaining =
  GetLandmarksWithinSensorRange p landmarks range remaining.
Proof.
  revert remaining. induction landmarks as [|lm rest IH]; intros remaining;
    simpl; [reflexivity|].
  destruct (leb _ range); apply IH.
Qed.

(** The weight a particle gets does not depend on the weight it has, nor
    on its index. *)
Lemma weigh_particle_set_weight (w : F) (i j : nat) p :
  weigh_particle sensor_range std_landmark observations map_landmarks j
    (set_weight w p) =
  weigh_particle sensor_range std_landmark observations map_landmarks i p.
Proof.
  unfold weigh_particle. rewrite GetLandmarksWithinSensorRange_set_weight.
  change (ConvertToParticleCoordinates (set_weight w p) observations)
    with (ConvertToParticleCoordinates p observations).
  destruct (dataAssociation _ _) as [chosen| |]; reflexivity.
Qed.

(** Weighing changes the weight field only. *)
Lemma weigh_particle_frame (i : nat) p p' :
  weigh_particle sensor_range std_landmark observations map_landmarks i p = Done p' ->
  p' = set_weight (p_weight p') p.
Proof.
  unfold weigh_particle. intros H.
  apply bind_Done_inv in H as (chosen & _ & H).
  unfold UpdateParticleWeight in H.
  apply bind_Done_inv in H as (w & _ & H).
  injection H as <-. reflexivity.
Qed.

Lemma weight_loop_Done (l1 sigmax sigmay : F)
    (obs transformed : list (@LandmarkObs F)) (i : nat) (w : F) :
  i + length obs <= length transformed ->
  exists w', weight_loop l1 sigmax sigmay obs i transformed w = Done w'.
Proof.
  revert i w. induction obs as [|o rest IH]; intros i w Hlen; simpl in *.
  - eauto.
  - destruct (lookup_lt_is_Some_2 transformed i) as [m Hm]; [lia|].
    rewrite (load_lookup _ _ _ Hm). simpl. apply IH. lia.
Qed.

(** A particle with a landmark in range, or without observations to
    match, gets a weight. *)
Lemma weigh_particle_Done (i : nat) p :
  observations = [] \/
  GetLandmarksWithinSensorRange p (landmark_list map_landmarks) sensor_range [] <> [] ->
  exists p', weigh_particle sensor_range std_landmark observations map_landmarks i p
             = Done p'.
Proof.
  intros H. unfold weigh_particle.
  set (remaining := GetLandmarksWithinSensorRange _ _ _ _) in *.
  set (converted := ConvertToParticleCoordinates p observations).
  assert (Hd : exists chosen, dataAssociation remaining converted = Done chosen
                 /\ length chosen = length converted).
  { destruct H as [-> | Hne].
    - exists []. split; reflexivity.
    - exists (map (matched remaining) converted).
      split; [apply dataAssociation_Done, Hne | apply length_map]. }
  destruct Hd as (chosen & -> & Hlen). simpl.
  unfold UpdateParticleWeight.
  destruct (weight_loop_Done (of_Z 1 / (of_Z 2 * M_PI * std_landmark.1 * std_landmark.2))%dbl
              std_landmark.1 std_landmark.2 converted chosen 0 (of_Z 1))
    as [w Hw]; [simpl; lia|].
  rewrite Hw. simpl. eauto.
Qed.

Lemma weigh_particle_raises_nothing (i : nat) p :
  raises_nothing
    (weigh_particle sensor_range std_landmark observations map_landmarks i p).
Proof.
  unfold weigh_particle.
  apply bind_raises_nothing; [apply dataAssociation_raises_nothing|].
  intros chosen. unfold UpdateParticleWeight.
  apply bind_raises_nothing; [|intros w; apply Done_raises_nothing].
  generalize (of_Z 1 : F) at 2. generalize 0.
  generalize (ConvertToParticleCoordinates p observations).
  intros obs. induction obs as [|o rest IH]; intros i0 w; simpl.
  - apply Done_raises_nothing.
  - apply bind_raises_nothing; [apply load_raises_nothing | intros m; apply IH].
Qed.

End UpdateWeights.

Section UpdateWeightsLoop.
Context {F : Type} {D : Double F} {L : Libm F}.
Variables (sensor_range : F) (std_landmark : F * F)
  (observations : list (@LandmarkObs F)) (map_landmarks : @Map F).
Implicit Types (p : @Particle F) (pf s : @ParticleFilter F).

Local Abbreviation body :=
  (updateWeights_body sensor_range std_landmark observations map_landmarks).
Local Abbreviation upto :=
  (weighed_upto sensor_range std_landmark observations map_landmarks).

Lemma weighed_upto_start pf : upto pf 0 pf.
Proof.
  repeat split; try reflexivity. intros j Hj. lia.
Qed.

Lemma updateWeights_body_step pf i s s' :
  upto pf i s -> body i s = Done s' -> upto pf (S i) s'.
Proof.
  intros (Hn & Hi & Hlp & Hlw & Hdone & Hrest) Hb.
  unfold body, updateWeights_body in Hb.
  apply bind_Done_inv in Hb as (curr_p & Hread & Hb).
  apply bind_Done_inv in Hb as (curr_p' & Hweigh & Hb).
  apply bind_Done_inv in Hb as (ps & Hps & Hb).
  apply bind_Done_inv in Hb as (ws & Hws & Hb).
  injection Hb as <-.
  apply load_Done in Hread.
  apply store_Done in Hps as [Hip ->].
  apply store_Done in Hws as [Hiw ->].
  destruct (Hrest i (le_n i)) as [Hpi Hwi]. rewrite Hpi in Hread.
  repeat split; simpl.
  - exact Hn.
  - exact Hi.
  - rewrite length_insert. exact Hlp.
  - rewrite length_insert. exact Hlw.
  - intros j Hj. destruct (decide (j = i)) as [-> | Hne].
    + exists curr_p, curr_p'.
      rewrite !list_lookup_insert_eq by assumption. auto.
    + destruct (Hdone j) as (p & p' & H1 & H2 & H3 & H4); [lia|].
      exists p, p'. rewrite !list_lookup_insert_ne by congruence. auto.
  - rewrite list_lookup_insert_ne by lia. apply Hrest. lia.
  - rewrite list_lookup_insert_ne by lia. apply Hrest. lia.
Qed.

(** What a returning [updateWeights] has done. *)
Lemma updateWeights_Done_inv pf pf' :
  updateWeights sensor_range std_landmark observations map_landmarks pf = Done pf' ->
  upto pf (num_particles pf) pf'.
Proof.
  intros H. unfold updateWeights in H.
  apply (for_loop_inv (upto pf) _ _ 0 pf pf' H).
  - apply weighed_upto_start.
  - intros i t t' _. apply updateWeights_body_step.
Qed.

(** [updateWeights] returns when both vectors hold [num_particles]
    elements and every particle can be weighed. *)
Lemma updateWeights_total pf :
  num_particles pf <= length (particles pf) ->
  num_particles pf <= length (weights pf) ->
  (forall j p, j < num_particles pf -> particles pf !! j = Some p ->
     exists p', weigh_particle sensor_range std_landmark observations
                  map_landmarks j p = Done p') ->
  exists pf',
    updateWeights sensor_range std_landmark observations map_landmarks pf = Done pf' /\
    upto pf (num_particles pf) pf'.
Proof.
  intros Hlp Hlw Hweigh. unfold updateWeights.
  apply (for_loop_total (upto pf) _ (num_particles pf) 0 pf).
  - apply weighed_upto_start.
  - intros i t Hi Hupto.
    assert (exists t', body i t = Done t') as [t' Ht'].
    { destruct Hupto as (Hn & _ & Hlp' & Hlw' & _ & Hrest).
      destruct (Hrest i (le_n i)) as [Hpi Hwi].
      destruct (lookup_lt_is_Some_2 (particles pf) i) as [p Hp]; [lia|].
      destruct (Hweigh i p) as [p' Hp']; [lia | exact Hp |].
      unfold body, updateWeights_body.
      rewrite (load_lookup i (particles t) p) by congruence. simpl.
      rewrite Hp'. simpl.
      rewrite store_in_range by lia. simpl.
      rewrite store_in_range by lia. simpl. eauto. }
    exists t'. split; [exact Ht'|].
    apply (updateWeights_body_step pf i t t' Hupto Ht').
Qed.

(** C9: a call to [updateWeights] that returns leaves the id, x, y and
    theta of every particle as they were, and with them the number of
    particles, the initialisation flag and the sizes of both vectors; only
    weights change. *)
Theorem updateWeights_frame pf pf' :
  updateWeights sensor_range std_landmark observations map_landmarks pf = Done pf' ->
  num_particles pf' = num_particles pf /\
  is_initialized pf' = is_initialized pf /\
  length (particles pf') = length (particles pf) /\
  length (weights pf') = length (weights pf) /\
  forall i p, particles pf !! i = Some p ->
    exists p', particles pf' !! i = Some p' /\
      p_id p' = p_id p /\ p_x p' = p_x p /\ p_y p' = p_y p /\
      p_theta p' = p_theta p.
Proof.
  intros H. apply updateWeights_Done_inv in H.
  destruct H as (Hn & Hi & Hlp & Hlw & Hdone & Hrest).
  repeat split; try assumption.
  intros i p Hp. destruct (decide (i < num_particles pf)) as [Hlt | Hge].
  - destruct (Hdone i Hlt) as (q & p' & Hq & Hw & Hp' & _).
    assert (q = p) as -> by congruence.
    exists p'. split; [exact Hp'|].
    rewrite (weigh_particle_frame _ _ _ _ _ _ _ Hw). auto.
  - destruct (Hrest i) as [Hp' _]; [lia|].
    exists p. rewrite Hp'. auto.
Qed.

(** C8: after a call to [updateWeights] that returned, a second call with
    the same arguments returns too and leaves the weight vector (and the
    particles) as the first call left them. *)
Theorem updateWeights_idempotent pf pf1 :
  updateWeights sensor_range std_landmark observations map_landmarks pf = Done pf1 ->
  exists pf2,
    updateWeights sensor_range std_landmark observations map_landmarks pf1 = Done pf2 /\
    weights pf2 = weights pf1 /\ particles pf2 = particles pf1.
Proof.
  intros H. apply updateWeights_Done_inv in H.
  destruct H as (Hn & Hi & Hlp & Hlw & Hdone & Hrest).
  exists pf1. split; [|split; reflexivity].
  unfold updateWeights.
  destruct (for_loop_total (fun _ s => s = pf1) body (num_particles pf1) 0 pf1)
    as (s' & Hs' & ->); [reflexivity | | exact Hs'].
  intros i t Hlt ->. exists pf1. split; [|reflexivity].
  destruct (Hdone i) as (p & p' & Hp & Hw & Hp' & Hw'); [lia|].
  unfold body, updateWeights_body.
  rewrite (load_lookup _ _ _ Hp'). simpl.
  rewrite (weigh_particle_frame _ _ _ _ _ _ _ Hw).
  rewrite (weigh_particle_set_weight _ _ _ _ _ i i).
  rewrite Hw. simpl.
  rewrite store_in_range by (apply lookup_lt_Some in Hp'; exact Hp'). simpl.
  rewrite store_in_range by (apply lookup_lt_Some in Hw'; exact Hw'). simpl.
  rewrite !list_insert_id by assumption.
  destruct pf1; reflexivity.
Qed.

End UpdateWeightsLoop.

(** ** [init] *)

Section Init.
Context {F : Type} {D : Double F} {G : Type} {Rnd : Random F G}.
Variables (x y theta : F) (std : F * F * F).
Implicit Types (pf s : @ParticleFilter F).

(** [init] returns on every object it is called on, with 75 particles of
    weight 1 numbered in order, the poses drawn in order. *)
Lemma init_spec pf0 :
  exists pf,
    init x y theta std pf0 = Done pf /\
    num_particles pf = 75 /\ is_initialized pf = true /\
    length (particles pf) = 75 /\ length (weights pf) = 75 /\
    forall i, i < 75 ->
      particles pf !! i =
        Some (let '(sx, sy, stheta) := init_sample x y theta std i in
              mkParticle (Z.of_nat i) sx sy stheta (of_Z 1)) /\
      weights pf !! i = Some (of_Z 1).
Proof.
  unfold init, init_sample. destruct std as [[std_x std_y] std_theta].
  set (draw := draw3 x std_x y std_y theta std_theta).
  set (start := set_weights _ _).
  destruct (for_loop_total
    (fun i (t : G * ParticleFilter) =>
       t.1 = after draw i default_random_engine /\
       num_particles t.2 = 75 /\
       length (particles t.2) = 75 /\ length (weights t.2) = 75 /\
       forall j, j < i ->
         particles t.2 !! j =
           Some (let '(sx, sy, stheta) := fst (draw (after draw j default_random_engine)) in
                 mkParticle (Z.of_nat j) sx sy stheta (of_Z 1)) /\
         weights t.2 !! j = Some (of_Z 1))
    (init_body x y theta std_x std_y std_theta) (num_particles start) 0
    (default_random_engine, start)) as ([gen pf] & Hloop & Hinv).
  - simpl. rewrite !length_resize. repeat split; lia.
  - intros i [gen t] Hi (Hgen & Hn & Hlp & Hlw & Hdone). simpl in *.
    unfold init_body. fold draw. rewrite Hgen.
    destruct (draw (after draw i default_random_engine)) as [[[sx sy] st] gen'] eqn:Hd.
    rewrite !store_in_range by lia. simpl.
    eexists. split; [reflexivity|]. simpl.
    repeat split.
    + exact Hn.
    + rewrite length_insert. exact Hlp.
    + rewrite length_insert. exact Hlw.
    + destruct (decide (j = i)) as [-> | Hne].
      * rewrite list_lookup_insert_eq by lia. rewrite Hd. reflexivity.
      * rewrite list_lookup_insert_ne by congruence. apply Hdone. lia.
    + destruct (decide (j = i)) as [-> | Hne].
      * rewrite list_lookup_insert_eq by lia. reflexivity.
      * rewrite list_lookup_insert_ne by congruence. apply Hdone. lia.
  - rewrite Hloop. simpl. eexists. split; [reflexivity|]. simpl in *.
    destruct Hinv as (_ & Hn & Hlp & Hlw & Hdone).
    rewrite Hn. repeat split; try assumption; apply Hdone; assumption.
Qed.

End Init.

(** ** [prediction] *)

Section Prediction.
Context {F : Type} {D : Double F} {L : Libm F} {G : Type} {Rnd : Random F G}.
Variables (delta_t : F) (std_pos : F * F * F) (velocity yaw_rate : F).
Implicit Types (p : @Particle F) (pf s : @ParticleFilter F).

Lemma p_weight_moved p (noise : F * F * F) :
  p_weight (moved delta_t velocity yaw_rate p noise) = of_Z 1.
Proof.
  unfold moved. destruct (motion _ _ _ _) as [[? ?] ?].
  destruct noise as [[? ?] ?]. reflexivity.
Qed.

(** [prediction] returns whenever both vectors hold [num_particles]
    elements; it moves the first [num_particles] particles, each with its
    own noise, and sets their weights to 1. *)
Lemma prediction_spec pf :
  num_particles pf <= length (particles pf) ->
  num_particles pf <= length (weights pf) ->
  exists pf',
    prediction delta_t std_pos velocity yaw_rate pf = Done pf' /\
    moved_upto delta_t std_pos velocity yaw_rate pf (num_particles pf) pf'.
Proof.
  intros Hlp Hlw. unfold prediction, moved_upto, prediction_noise.
  destruct std_pos as [[std_x std_y] std_yaw].
  set (draw := draw3 (of_Z 0) std_x (of_Z 0) std_y (of_Z 0) std_yaw).
  destruct (for_loop_total
    (fun i (t : G * ParticleFilter) =>
       t.1 = after draw i default_random_engine /\
       num_particles t.2 = num_particles pf /\
       is_initialized t.2 = is_initialized pf /\
       length (particles t.2) = length (particles pf) /\
       length (weights t.2) = length (weights pf) /\
       (forall j, j < i ->
          exists p, particles pf !! j = Some p /\
            particles t.2 !! j =
              Some (moved delta_t velocity yaw_rate p
                      (fst (draw (after draw j default_random_engine)))) /\
            weights t.2 !! j = Some (of_Z 1)) /\
       (forall j, i <= j ->
          particles t.2 !! j = particles pf !! j /\
          weights t.2 !! j = weights pf !! j))
    (prediction_body delta_t std_x std_y std_yaw velocity yaw_rate)
    (num_particles pf) 0 (default_random_engine, pf)) as ([gen pf'] & Hloop & Hinv).
  - simpl. repeat split; try reflexivity. intros j Hj. lia.
  - intros i [gen t] Hi (Hgen & Hn & Hini & Hlp' & Hlw' & Hdone & Hrest).
    simpl in *. unfold prediction_body. fold draw.
    destruct (Hrest i (le_n i)) as [Hpi Hwi].
    destruct (lookup_lt_is_Some_2 (particles pf) i) as [p Hp]; [lia|].
    rewrite (load_lookup i (particles t) p) by congruence. simpl.
    rewrite Hgen.
    destruct (draw (after draw i default_random_engine)) as [noise gen'] eqn:Hd.
    rewrite !store_in_range by lia. simpl.
    eexists. split; [reflexivity|]. simpl.
    split; [reflexivity|].
    split; [exact Hn|]. split; [exact Hini|].
    split; [rewrite length_insert; exact Hlp'|].
    split; [rewrite length_insert; exact Hlw'|].
    split.
    + intros j Hj. destruct (decide (j = i)) as [-> | Hne].
      * exists p. rewrite !list_lookup_insert_eq by lia. rewrite Hd. auto.
      * destruct (Hdone j) as (q & Hq & Hq' & Hw); [lia|].
        exists q. rewrite !list_lookup_insert_ne by congruence. auto.
    + intros j Hj. rewrite !list_lookup_insert_ne by lia. apply Hrest. lia.
  - rewrite Hloop. simpl. exists pf'. split; [reflexivity|].
    simpl in Hinv. destruct Hinv as (_ & Hinv). exact Hinv.
Qed.

Lemma prediction_raises_nothing pf :
  raises_nothing (prediction delta_t std_pos velocity yaw_rate pf).
Proof.
  unfold prediction. destruct std_pos as [[std_x std_y] std_yaw].
  apply bind_raises_nothing; [|intros s; apply Done_raises_nothing].
  apply for_loop_raises_nothing. intros i [gen t]. unfold prediction_body.
  apply bind_raises_nothing; [apply load_raises_nothing | intros p].
  destruct (draw3 _ _ _ _ _ _ _) as [noise gen'].
  apply bind_raises_nothing; [apply store_raises_nothing | intros ps].
  apply bind_raises_nothing; [apply store_raises_nothing | intros ws].
  apply Done_raises_nothing.
Qed.

End Prediction.

(** ** [resample] *)

Section Resample.
Context {F : Type} {D : Double F} {G : Type} {Rnd : Random F G}.
Implicit Types (p : @Particle F) (pf : @ParticleFilter F).

Local Abbreviation inv := resample_inv.

Lemma resample_start pf gen :
  inv pf gen 0
    (gen, (resize (num_particles pf) Particle_zero [],
           resize (num_particles pf) (of_Z 0) [])).
Proof.
  unfold inv, drawn_upto. simpl. rewrite !length_resize.
  repeat split. intros j Hj. lia.
Qed.

Lemma resample_body_step pf gen i t t' :
  inv pf gen i t -> resample_body pf i t = Done t' -> inv pf gen (S i) t'.
Proof.
  destruct t as [g [pt wt]]. intros (Hg & Hlp & Hlw & Hdone) Hb.
  simpl in *. unfold resample_body in Hb.
  destruct (discrete_distribution (weights pf) g) as [index g'] eqn:Hd.
  apply bind_Done_inv in Hb as (p & Hread & Hb).
  apply bind_Done_inv in Hb as (wt' & Hwt & Hb).
  apply bind_Done_inv in Hb as (pt' & Hpt & Hb).
  injection Hb as <-.
  apply load_Done in Hread.
  apply store_Done in Hwt as [Hiw ->].
  apply store_Done in Hpt as [Hip ->].
  assert (Hidx : resample_index pf gen i = index).
  { unfold resample_index. cbv zeta. rewrite <- Hg, Hd. reflexivity. }
  split; [|split; [|split]]; simpl.
  - change (after (discrete_distribution (weights pf)) (S i) gen)
      with (snd (discrete_distribution (weights pf)
                   (after (discrete_distribution (weights pf)) i gen))).
    rewrite <- Hg, Hd. reflexivity.
  - rewrite length_insert. exact Hlp.
  - rewrite length_insert. exact Hlw.
  - intros j Hj. destruct (decide (j = i)) as [-> | Hne].
    + exists p. rewrite Hidx, !list_lookup_insert_eq by assumption. auto.
    + destruct (Hdone j) as (q & H1 & H2 & H3); [lia|].
      exists q. rewrite !list_lookup_insert_ne by congruence. auto.
Qed.

(** What a returning [resample] has built. *)
Lemma resample_Done_inv gen pf pf' :
  resample gen pf = Done pf' ->
  num_particles pf' = num_particles pf /\
  is_initialized pf' = is_initialized pf /\
  drawn_upto pf gen (num_particles pf) (particles pf') (weights pf').
Proof.
  unfold resample. intros H.
  apply bind_Done_inv in H as ([g [pt wt]] & Hloop & H).
  injection H as <-. simpl.
  split; [reflexivity|]. split; [reflexivity|].
  apply (for_loop_inv (inv pf gen) _ _ 0 _ _ Hloop).
  - apply resample_start.
  - intros i t t' _. apply resample_body_step.
Qed.

(** [resample] returns when every drawn index lies within the particle
    vector. *)
Lemma resample_total gen pf :
  (forall j, j < num_particles pf ->
     resample_index pf gen j < length (particles pf)) ->
  exists pf',
    resample gen pf = Done pf' /\
    num_particles pf' = num_particles pf /\
    is_initialized pf' = is_initialized pf /\
    drawn_upto pf gen (num_particles pf) (particles pf') (weights pf').
Proof.
  intros Hrange. unfold resample.
  destruct (for_loop_total (inv pf gen) (resample_body pf) (num_particles pf) 0
              (gen, (resize (num_particles pf) Particle_zero [],
                     resize (num_particles pf) (of_Z 0) [])))
    as ([g [pt wt]] & Hloop & Hinv).
  - apply resample_start.
  - intros i [g [pt wt]] Hi Hinv.
    assert (exists t', resample_body pf i (g, (pt, wt)) = Done t') as [t' Ht'].
    { destruct Hinv as (Hg & Hlp & Hlw & _). simpl in *.
      unfold resample_body.
      destruct (discrete_distribution (weights pf) g) as [index g'] eqn:Hd.
      assert (Hidx : resample_index pf gen i = index).
      { unfold resample_index. cbv zeta. rewrite <- Hg, Hd. reflexivity. }
      destruct (lookup_lt_is_Some_2 (particles pf) index) as [p Hp].
      { rewrite <- Hidx. apply Hrange. lia. }
      rewrite (load_lookup _ _ _ Hp). simpl.
      rewrite store_in_range by lia. simpl.
      rewrite store_in_range by lia. simpl. eauto. }
    exists t'. split; [exact Ht'|].
    apply (resample_body_step pf gen i _ t' Hinv Ht').
  - rewrite Hloop. simpl. eexists. split; [reflexivity|]. simpl.
    split; [reflexivity|]. split; [reflexivity|]. apply Hinv.
Qed.

Lemma resample_raises_nothing gen pf : raises_nothing (resample gen pf).
Proof.
  unfold resample.
  apply bind_raises_nothing.
  - apply for_loop_raises_nothing. intros i [g [pt wt]]. unfold resample_body.
    destruct (discrete_distribution _ _) as [index g'].
    apply bind_raises_nothing; [apply load_raises_nothing | intros p].
    apply bind_raises_nothing; [apply store_raises_nothing | intros ws].
    apply bind_raises_nothing; [apply store_raises_nothing | intros ps].
    apply Done_raises_nothing.
  - intros [g [pt wt]]. apply Done_raises_nothing.
Qed.

(** Two vectors built in step are parallel. *)
Lemma parallel_vectors (n : nat) (ps : list (@Particle F)) (ws : list F) :
  length ps = n -> length ws = n ->
  (forall j, j < n ->
     exists p, ps !! j = Some p /\ ws !! j = Some (p_weight p)) ->
  ws = map p_weight ps.
Proof.
  intros Hlp Hlw H. apply list_eq. intros j.
  rewrite list_lookup_fmap. destruct (decide (j < n)) as [Hj | Hj].
  - destruct (H j Hj) as (p & -> & ->). reflexivity.
  - rewrite !lookup_ge_None_2 by lia. reflexivity.
Qed.

(** C5, amended: [resample] has no failure path.  Whatever the weights,
    all zero included, it signals no error; and whenever the drawn indices
    lie within the particle vector it returns a generation of
    [num_particles] particles, each a copy of the old particle at its drawn
    index, with its parallel weight vector. *)
Theorem resample_never_fails gen pf :
  raises_nothing (resample gen pf) /\
  ((forall j, j < num_particles pf ->
      resample_index pf gen j < length (particles pf)) ->
   exists pf',
     resample gen pf = Done pf' /\
     num_particles pf' = num_particles pf /\
     length (particles pf') = num_particles pf /\
     weights pf' = map p_weight (particles pf') /\
     forall i, i < num_particles pf ->
       exists p, particles pf !! resample_index pf gen i = Some p /\
         particles pf' !! i = Some p).
Proof.
  split; [apply resample_raises_nothing|].
  intros Hrange.
  destruct (resample_total gen pf Hrange)
    as (pf' & Hr & Hn & _ & Hlp & Hlw & Hdrawn).
  exists pf'. split; [exact Hr|]. split; [exact Hn|]. split; [exact Hlp|].
  split.
  - apply (parallel_vectors (num_particles pf)); try assumption.
    intros j Hj. destruct (Hdrawn j Hj) as (p & _ & H1 & H2). eauto.
  - intros i Hi. destruct (Hdrawn i Hi) as (p & H0 & H1 & _). eauto.
Qed.

(** C7, amended: the particle at position [i] of the new generation is a
    copy of the old particle at the [i]-th drawn index, identifier
    included: identifiers are carried over, not reassigned. *)
Theorem resample_copies_particles gen pf pf' :
  resample gen pf = Done pf' ->
  forall i, i < num_particles pf ->
    exists p, particles pf !! resample_index pf gen i = Some p /\
      particles pf' !! i = Some p /\
      weights pf' !! i = Some (p_weight p).
Proof.
  intros H i Hi. apply resample_Done_inv in H as (_ & _ & _ & _ & Hdrawn).
  apply Hdrawn. exact Hi.
Qed.

End Resample.

(** ** The particle-set invariant *)

Section Invariant.
Context {F : Type} {D : Double F} {L : Libm F} {G : Type} {Rnd : Random F G}.
Implicit Types (pf : @ParticleFilter F).

Lemma wf_lookup pf i :
  wf pf -> i < num_particles pf ->
  exists p, particles pf !! i = Some p /\ weights pf !! i = Some (p_weight p).
Proof.
  intros [Hlen Hw] Hi.
  destruct (lookup_lt_is_Some_2 (particles pf) i) as [p Hp]; [lia|].
  exists p. split; [exact Hp|].
  rewrite Hw, list_lookup_fmap, Hp. reflexivity.
Qed.

Lemma wf_lengths pf :
  wf pf ->
  length (particles pf) = num_particles pf /\
  length (weights pf) = num_particles pf.
Proof. intros [Hlen ->]. rewrite length_map. auto. Qed.

Lemma init_wf x y theta std pf0 pf :
  init x y theta std pf0 = Done pf -> wf pf /\ num_particles pf = 75.
Proof.
  intros H.
  destruct (init_spec x y theta std pf0) as (pf1 & H1 & Hn & _ & Hlp & Hlw & Hall).
  assert (pf1 = pf) as -> by congruence.
  split; [|exact Hn]. split; [congruence|].
  apply (parallel_vectors 75); try assumption.
  intros j Hj. destruct (Hall j Hj) as [-> ->].
  eexists. split; [reflexivity|].
  destruct (init_sample x y theta std j) as [[? ?] ?]. reflexivity.
Qed.

Lemma prediction_wf delta_t std_pos velocity yaw_rate pf pf' :
  wf pf ->
  prediction delta_t std_pos velocity yaw_rate pf = Done pf' ->
  wf pf' /\ num_particles pf' = num_particles pf.
Proof.
  intros Hwf H. destruct (wf_lengths pf Hwf) as [Hlp Hlw].
  destruct (prediction_spec delta_t std_pos velocity yaw_rate pf)
    as (pf1 & H1 & Hn & _ & Hlp' & Hlw' & Hdone & _); [lia | lia |].
  assert (pf1 = pf') as -> by congruence.
  split; [|exact Hn]. split; [congruence|].
  apply (parallel_vectors (num_particles pf)); try congruence.
  intros j Hj. destruct (Hdone j Hj) as (p & _ & -> & ->).
  eexists. split; [reflexivity|]. rewrite p_weight_moved. reflexivity.
Qed.

Lemma updateWeights_wf sensor_range std_landmark observations map_landmarks pf pf' :
  wf pf ->
  updateWeights sensor_range std_landmark observations map_landmarks pf = Done pf' ->
  wf pf' /\ num_particles pf' = num_particles pf.
Proof.
  intros Hwf H. destruct (wf_lengths pf Hwf) as [Hlp Hlw].
  apply updateWeights_Done_inv in H as (Hn & _ & Hlp' & Hlw' & Hdone & _).
  split; [|exact Hn]. split; [congruence|].
  apply (parallel_vectors (num_particles pf)); try congruence.
  intros j Hj. destruct (Hdone j Hj) as (p & p' & _ & _ & -> & ->). eauto.
Qed.

Lemma resample_wf gen pf pf' :
  resample gen pf = Done pf' ->
  wf pf' /\ num_particles pf' = num_particles pf.
Proof.
  intros H. apply resample_Done_inv in H as (Hn & _ & Hlp & Hlw & Hdrawn).
  split; [|exact Hn]. split; [congruence|].
  apply (parallel_vectors (num_particles pf)); try assumption.
  intros j Hj. destruct (Hdrawn j Hj) as (p & _ & -> & ->). eauto.
Qed.

Lemma reachable_wf pf : reachable pf -> wf pf /\ num_particles pf = 75.
Proof.
  induction 1 as [x y theta std pf0 pf H
                 | delta_t std_pos velocity yaw_rate pf pf' _ [IHwf IHn] H
                 | sensor_range std_landmark observations map_landmarks pf pf' _ [IHwf IHn] H
                 | gen pf pf' _ [IHwf IHn] H].
  - apply (init_wf _ _ _ _ _ _ H).
  - destruct (prediction_wf _ _ _ _ _ _ IHwf H) as [Hwf Hn].
    split; [exact Hwf | congruence].
  - destruct (updateWeights_wf _ _ _ _ _ _ IHwf H) as [Hwf Hn].
    split; [exact Hwf | congruence].
  - destruct (resample_wf _ _ _ H) as [Hwf Hn].
    split; [exact Hwf | congruence].
Qed.

(** C4: in every state that [init] and any sequence of [prediction],
    [updateWeights] and [resample] calls produce, both vectors hold 75
    elements, the number [init] fixed, and [weights[i]] is
    [particles[i].weight] at every index. *)
Theorem filter_invariant pf :
  reachable pf ->
  num_particles pf = 75 /\
  length (particles pf) = 75 /\ length (weights pf) = 75 /\
  forall i, i < 75 ->
    exists p, particles pf !! i = Some p /\ weights pf !! i = Some (p_weight p).
Proof.
  intros H. destruct (reachable_wf pf H) as [Hwf Hn].
  destruct (wf_lengths pf Hwf) as [Hlp Hlw].
  split; [exact Hn|]. split; [congruence|]. split; [congruence|].
  intros i Hi. apply wf_lookup; [exact Hwf | lia].
Qed.

(** In such a state [prediction] always returns. *)
Lemma prediction_returns delta_t std_pos velocity yaw_rate pf :
  wf pf ->
  exists pf', prediction delta_t std_pos velocity yaw_rate pf = Done pf'.
Proof.
  intros Hwf. destruct (wf_lengths pf Hwf) as [Hlp Hlw].
  destruct (prediction_spec delta_t std_pos velocity yaw_rate pf)
    as (pf' & H & _); [lia | lia | eauto].
Qed.

(** No public operation signals an error, on any state and arguments: the
    source has no error channel. *)
Lemma operations_raise_nothing pf :
  (forall x y theta std, raises_nothing (init x y theta std pf)) /\
  (forall delta_t std_pos velocity yaw_rate,
     raises_nothing (prediction delta_t std_pos velocity yaw_rate pf)) /\
  (forall sensor_range std_landmark observations map_landmarks,
     raises_nothing
       (updateWeights sensor_range std_landmark observations map_landmarks pf)) /\
  (forall gen, raises_nothing (resample gen pf)).
Proof.
  split; [|split; [|split]].
  - intros x y theta std.
    destruct (init_spec x y theta std pf) as (pf' & -> & _).
    apply Done_raises_nothing.
  - intros. apply prediction_raises_nothing.
  - intros. unfold updateWeights. apply for_loop_raises_nothing.
    intros i t. unfold updateWeights_body.
    apply bind_raises_nothing; [apply load_raises_nothing | intros p].
    apply bind_raises_nothing; [apply weigh_particle_raises_nothing | intros p'].
    apply bind_raises_nothing; [apply store_raises_nothing | intros ps].
    apply bind_raises_nothing; [apply store_raises_nothing | intros ws].
    apply Done_raises_nothing.
  - intros. apply resample_raises_nothing.
Qed.

End Invariant.

(** ** No candidates *)

Section NoCandidates.
Context {F : Type} {D : Double F} {L : Libm F}.
Implicit Types (o : @LandmarkObs F) (p : @Particle F) (pf : @ParticleFilter F).

(** A particle without a landmark within sensor range is matched against
    an empty candidate vector as soon as there is an observation. *)
Lemma weigh_particle_no_candidates sensor_range std_landmark o
    (observations : list (@LandmarkObs F)) (map_landmarks : @Map F) i p :
  GetLandmarksWithinSensorRange p (landmark_list map_landmarks) sensor_range [] = [] ->
  weigh_particle sensor_range std_landmark (o :: observations) map_landmarks i p
  = Undefined.
Proof. intros Hnone. unfold weigh_particle. rewrite Hnone. reflexivity. Qed.

(** C6, at an empty candidate vector: the loop over [j] compares nothing
    and [closest] keeps its initial value 0; the call then reads
    [predicted[0]], which does not exist.  It signals no error, marks no
    observation as unassociated and returns nothing.  In [updateWeights]
    this is what happens as soon as one particle has no landmark within
    sensor range while there is an observation. *)
Theorem dataAssociation_empty_candidates o (observations : list (@LandmarkObs F)) :
  find_closest [] o = 0 /\
  load (find_closest [] o) ([] : list (@LandmarkObs F)) = Undefined /\
  dataAssociation [] (o :: observations) = Undefined /\
  (forall e, dataAssociation [] (o :: observations) <> Raised e) /\
  (forall marked, dataAssociation [] (o :: observations) <> Done marked) /\
  (forall sensor_range std_landmark map_landmarks pf,
     wf pf ->
     (exists p, p ∈ particles pf /\
        GetLandmarksWithinSensorRange p (landmark_list map_landmarks)
          sensor_range [] = []) ->
     updateWeights sensor_range std_landmark (o :: observations) map_landmarks pf
     = Undefined).
Proof.
  split; [reflexivity|]. split; [reflexivity|]. split; [reflexivity|].
  split; [intros e; discriminate|]. split; [intros marked; discriminate|].
  intros sensor_range std_landmark map_landmarks pf Hwf (p & Hin & Hnone).
  destruct (wf_lengths pf Hwf) as [Hlp Hlw].
  apply list_elem_of_lookup in Hin as [i Hi].
  destruct (updateWeights sensor_range std_landmark (o :: observations)
              map_landmarks pf) as [pf'|e|] eqn:H.
  - apply updateWeights_Done_inv in H as (_ & _ & _ & _ & Hdone & _).
    destruct (Hdone i) as (q & q' & Hq & Hw & _).
    { apply lookup_lt_Some in Hi. lia. }
    assert (q = p) as -> by congruence.
    rewrite weigh_particle_no_candidates in Hw by exact Hnone. discriminate Hw.
  - destruct (operations_raise_nothing (Rnd := scripted F) pf) as (_ & _ & Hu & _).
    destruct (Hu sensor_range std_landmark (o :: observations) map_landmarks e H).
  - reflexivity.
Qed.

End NoCandidates.

(** ** A yaw rate of zero *)

Section ZeroYawRate.
Context {F : Type} {D : Double F} {L : Libm F} {G : Type} {Rnd : Random F G}.
Implicit Types (p : @Particle F) (pf : @ParticleFilter F).

(** [fabs(0.0) > 0.0] is false. *)
Hypothesis guard_zero : ltb (of_Z 0) (fabs (of_Z 0)) = false.

Lemma motion_zero_yaw_rate (d : F -> F -> F) delta_t velocity p :
  motion (D := with_div D d) delta_t velocity (of_Z 0) p =
  (p_x p + velocity * delta_t * fcos (p_theta p),
   p_y p + velocity * delta_t * fsin (p_theta p),
   p_theta p)%dbl.
Proof.
  unfold motion. cbn [with_div of_Z ltb fabs add mul].
  rewrite guard_zero. reflexivity.
Qed.

Lemma moved_zero_yaw_rate (d : F -> F -> F) delta_t velocity p noise :
  moved (D := with_div D d) delta_t velocity (of_Z 0) p noise =
  (let '(noise_x, noise_y, noise_theta) := noise in
   mkParticle (p_id p)
     (p_x p + velocity * delta_t * fcos (p_theta p) + noise_x)
     (p_y p + velocity * delta_t * fsin (p_theta p) + noise_y)
     (p_theta p + noise_theta) (of_Z 1))%dbl.
Proof.
  unfold moved. rewrite motion_zero_yaw_rate. destruct noise as [[? ?] ?]. reflexivity.
Qed.

Lemma with_div_self : with_div D div = D.
Proof. destruct D. reflexivity. Qed.

(** With a yaw rate of 0.0 [prediction] computes the same whatever the
    division operator returns, and on a particle set whose vectors hold
    [num_particles] elements it returns, each pose being advanced along its
    heading before noise is added. *)
Lemma prediction_straight_line delta_t std_pos velocity pf :
  (forall d : F -> F -> F,
     prediction (D := with_div D d) delta_t std_pos velocity (of_Z 0) pf =
     prediction delta_t std_pos velocity (of_Z 0) pf) /\
  (wf pf ->
   exists pf',
     prediction delta_t std_pos velocity (of_Z 0) pf = Done pf' /\
     forall i p, particles pf !! i = Some p ->
       particles pf' !! i =
       Some (let '(noise_x, noise_y, noise_theta) := prediction_noise std_pos i in
             mkParticle (p_id p)
               (p_x p + velocity * delta_t * fcos (p_theta p) + noise_x)
               (p_y p + velocity * delta_t * fsin (p_theta p) + noise_y)
               (p_theta p + noise_theta) (of_Z 1))%dbl).
Proof.
  assert (Hany : forall d d' : F -> F -> F,
            prediction (D := with_div D d) delta_t std_pos velocity (of_Z 0) pf =
            prediction (D := with_div D d') delta_t std_pos velocity (of_Z 0) pf).
  { intros d d'. unfold prediction. destruct std_pos as [[std_x std_y] std_yaw].
    f_equal. apply for_loop_ext. intros i [gen t] _. unfold prediction_body.
    destruct (load i (particles t)) as [p| |]; simpl; try reflexivity.
    destruct (draw3 _ _ _ _ _ _ gen) as [noise gen'].
    rewrite (moved_zero_yaw_rate d), (moved_zero_yaw_rate d'). reflexivity. }
  split.
  - intros d. rewrite (Hany d div), with_div_self. reflexivity.
  - intros Hwf. destruct (wf_lengths pf Hwf) as [Hlp Hlw].
    destruct (prediction_spec delta_t std_pos velocity (of_Z 0) pf)
      as (pf' & H & _ & _ & _ & _ & Hdone & _); [lia | lia |].
    exists pf'. split; [exact H|].
    intros i p Hp.
    destruct (Hdone i) as (q & Hq & Hq' & _).
    { apply lookup_lt_Some in Hp. lia. }
    assert (q = p) as -> by congruence.
    rewrite Hq'. f_equal.
    pose proof (moved_zero_yaw_rate div delta_t velocity p
                  (prediction_noise std_pos i)) as Hm.
    rewrite with_div_self in Hm. exact Hm.
Qed.

End ZeroYawRate.

(** The guard of the motion model at 0.0, on the reals and on binary64
    numbers (for both zeros). *)
Lemma guard_zero_real : ltb (of_Z 0) (fabs (of_Z 0 : R)) = false.
Proof.
  cbn [of_Z ltb fabs R_double]. rewrite Rabs_R0.
  apply bool_decide_eq_false_2. lra.
Qed.

Lemma guard_zero_binary64 :
  ltb (of_Z 0) (fabs (of_Z 0 : PrimFloat.float)) = false /\
  ltb (of_Z 0) (fabs (neg (of_Z 0 : PrimFloat.float))) = false.
Proof. vm_compute. split; reflexivity. Qed.

(** C10: with a yaw rate of exactly 0.0 the guard [fabs(yaw_rate) > 0.0]
    is false and the straight-line branch is taken: on a particle set that
    satisfies the invariant [prediction] returns, every pose is advanced by
    [velocity * delta_t] along its heading before noise is added, and the
    result is the same whatever the division operator returns, so that
    [velocity / yaw_rate] is not evaluated. *)
Theorem prediction_zero_yaw_rate {G : Type} {Rnd : Random R G}
    (delta_t : R) (std_pos : R * R * R) (velocity : R) (pf : @ParticleFilter R) :
  wf pf ->
  ltb (of_Z 0) (fabs (of_Z 0 : R)) = false /\
  (forall d : R -> R -> R,
     prediction (D := with_div R_double d) delta_t std_pos velocity 0%R pf =
     prediction delta_t std_pos velocity 0%R pf) /\
  exists pf',
    prediction delta_t std_pos velocity 0%R pf = Done pf' /\
    forall i p, particles pf !! i = Some p ->
      particles pf' !! i =
      Some (let '(noise_x, noise_y, noise_theta) := prediction_noise std_pos i in
            mkParticle (p_id p)
              (p_x p + velocity * delta_t * cos (p_theta p) + noise_x)
              (p_y p + velocity * delta_t * sin (p_theta p) + noise_y)
              (p_theta p + noise_theta) 1)%R.
Proof.
  intros Hwf. split; [exact guard_zero_real|].
  destruct (prediction_straight_line guard_zero_real delta_t std_pos velocity pf)
    as [Hdiv Hret].
  split; [exact Hdiv | exact (Hret Hwf)].
Qed.

(** The same on binary64 numbers, for any [<cmath>]. *)
Lemma prediction_zero_yaw_rate_binary64 {L : Libm PrimFloat.float} {G : Type}
    {Rnd : Random PrimFloat.float G}
    (delta_t : PrimFloat.float) (std_pos : PrimFloat.float * PrimFloat.float * PrimFloat.float)
    (velocity : PrimFloat.float) (pf : @ParticleFilter PrimFloat.float)
    (d : PrimFloat.float -> PrimFloat.float -> PrimFloat.float) :
  prediction (D := with_div float_double d) delta_t std_pos velocity (of_Z 0) pf =
  prediction delta_t std_pos velocity (of_Z 0) pf.
Proof.
  apply (prediction_straight_line (proj1 guard_zero_binary64)).
Qed.

(** ** The motion model, over the reals *)

Section MotionModel.
Context {G : Type} {Rnd : Random R G}.
Implicit Types (p : @Particle R) (pf : @ParticleFilter R).

Lemma motion_closed_form (delta_t v omega : R) p :
  motion delta_t v omega p =
  closed_form delta_t v omega (p_x p) (p_y p) (p_theta p).
Proof.
  unfold motion, closed_form. cbn.
  unfold bool_decide, decide_rel, Rlt_decision.
  destruct (Rlt_dec 0 (Rabs omega)); reflexivity.
Qed.

(** A normal distribution without spread returns its mean, so the noise
    drawn with zero standard deviations is zero. *)
Lemma prediction_noise_zero (i : nat) :
  (forall (m : R) (g : G), fst (normal_distribution m 0%R g) = m) ->
  prediction_noise (0, 0, 0)%R i = (0, 0, 0)%R.
Proof.
  intros Hmean. unfold prediction_noise. cbn [of_Z R_double].
  generalize (after (draw3 0 0 0 0 0 0)%R i default_random_engine).
  intros g. unfold draw3.
  pose proof (Hmean 0%R g) as H1.
  destruct (normal_distribution 0%R 0%R g) as [a g1].
  pose proof (Hmean 0%R g1) as H2.
  destruct (normal_distribution 0%R 0%R g1) as [b g2].
  pose proof (Hmean 0%R g2) as H3.
  destruct (normal_distribution 0%R 0%R g2) as [c g3].
  simpl in *. congruence.
Qed.

(** C2: on a particle set that satisfies the invariant, [prediction]
    returns, and particle [i] gets the closed-form pose of the motion model
    plus the noise drawn for it; with zero standard deviations, and a
    normal distribution that then returns its mean, the new pose is the
    closed form itself. *)
Theorem prediction_closed_form (delta_t : R) (std_pos : R * R * R) (v omega : R) pf :
  wf pf ->
  exists pf',
    prediction delta_t std_pos v omega pf = Done pf' /\
    length (particles pf') = length (particles pf) /\
    forall i p, particles pf !! i = Some p ->
      let '(x', y', theta') :=
        closed_form delta_t v omega (p_x p) (p_y p) (p_theta p) in
      let '(noise_x, noise_y, noise_theta) := prediction_noise std_pos i in
      particles pf' !! i =
        Some (mkParticle (p_id p) (x' + noise_x) (y' + noise_y)
                (theta' + noise_theta) 1)%R /\
      ((forall (m : R) (g : G), fst (normal_distribution m 0%R g) = m) ->
       std_pos = (0, 0, 0)%R ->
       particles pf' !! i = Some (mkParticle (p_id p) x' y' theta' 1%R)).
Proof.
  intros Hwf. destruct (wf_lengths pf Hwf) as [Hlp Hlw].
  destruct (prediction_spec delta_t std_pos v omega pf)
    as (pf' & H & _ & _ & Hlp' & _ & Hdone & _); [lia | lia |].
  exists pf'. split; [exact H|]. split; [exact Hlp'|].
  intros i p Hp.
  destruct (Hdone i) as (q & Hq & Hq' & _).
  { apply lookup_lt_Some in Hp. lia. }
  assert (q = p) as -> by congruence.
  unfold moved in Hq'. rewrite motion_closed_form in Hq'.
  destruct (closed_form _ _ _ _ _ _) as [[x' y'] theta'].
  destruct (prediction_noise std_pos i) as [[noise_x noise_y] noise_theta] eqn:Hnoise.
  split; [exact Hq'|].
  intros Hmean ->. rewrite (prediction_noise_zero i Hmean) in Hnoise.
  injection Hnoise as <- <- <-.
  rewrite Hq'. cbn [add R_double]. rewrite !Rplus_0_r. reflexivity.
Qed.

End MotionModel.

(** ** The particle weight, over the reals *)

Section Likelihood.
Implicit Types (o mu : @LandmarkObs R).

Lemma temp_weight_density (sigma_x sigma_y : R) o mu :
  (1 / (2 * PI * sigma_x * sigma_y)
   * exp (- ((o_x o - o_x mu) * (o_x o - o_x mu) / (2 * sigma_x * sigma_x)
            + (o_y o - o_y mu) * (o_y o - o_y mu) / (2 * sigma_y * sigma_y))))%R
  = gaussian_density sigma_x sigma_y o mu.
Proof.
  unfold gaussian_density. f_equal. f_equal.
  replace (2 * sigma_x ^ 2)%R with (2 * sigma_x * sigma_x)%R by ring.
  replace (2 * sigma_y ^ 2)%R with (2 * sigma_y * sigma_y)%R by ring.
  unfold Rdiv. ring.
Qed.

Lemma weight_loop_likelihood (sigma_x sigma_y : R)
    (observations means done : list (@LandmarkObs R)) (w : R) :
  length observations <= length means ->
  weight_loop (1 / (2 * PI * sigma_x * sigma_y))%R sigma_x sigma_y
    observations (length done) (done ++ means) w =
  Done (w * likelihood sigma_x sigma_y observations means)%R.
Proof.
  revert means done w.
  induction observations as [|o rest IH]; intros means done w Hlen.
  - simpl. f_equal. destruct means; simpl; ring.
  - destruct means as [|mu means']; simpl in Hlen; [lia|].
    cbn [weight_loop].
    rewrite (load_lookup (length done) (done ++ mu :: means') mu)
      by apply list_lookup_middle, eq_refl.
    cbn [bind].
    replace (done ++ mu :: means') with ((done ++ [mu]) ++ means')
      by (rewrite <- app_assoc; reflexivity).
    replace (S (length done)) with (length (done ++ [mu]))
      by (rewrite length_app; simpl; lia).
    rewrite IH by lia. f_equal.
    cbn [likelihood of_Z add sub mul div neg fexp R_double R_libm].
    rewrite temp_weight_density. ring.
Qed.


End Likelihood.

(** * The model on concrete inputs *)

(** ** [resample] *)

(** C5 as stated fails: on a particle set whose weights are all zero
    [resample] signals no [DegenerateWeightsError]; with draws of index 0
    it returns a new generation. *)
Lemma resample_all_zero_weights :
  Forall (fun w => w = 0%R) (weights starved) /\
  resample (Rnd := scripted R) [] starved <> Raised DegenerateWeightsError /\
  resample (Rnd := scripted R) [] starved =
    Done (mkFilter 2 true
            [mkParticle 0 1%R 2%R 3%R 0%R; mkParticle 0 1%R 2%R 3%R 0%R]
            [0%R; 0%R]).
Proof.
  split; [repeat constructor|].
  split; [apply resample_raises_nothing | reflexivity].
Qed.

(** C7 as stated fails: with all the weight on particle 1 both draws return
    index 1, and position 0 of the new generation holds a particle whose
    identifier is 1. *)
Lemma resample_keeps_identifiers :
  exists pf',
    resample (Rnd := scripted R) [1; 1] second_heavy = Done pf' /\
    exists p, particles pf' !! 0 = Some p /\ p_id p <> Z.of_nat 0.
Proof.
  eexists. split; [reflexivity|].
  eexists. split; [reflexivity|]. simpl. discriminate.
Qed.

(** The same run, through the amended statement: position 0 holds the
    particle drawn for it. *)
Lemma resample_copies_particles_witness :
  exists p,
    particles second_heavy !! resample_index (Rnd := scripted R) second_heavy [1; 1] 0
      = Some p /\
    [mkParticle 1 4%R 5%R 6%R 1%R; mkParticle 1 4%R 5%R 6%R 1%R] !! 0 = Some p /\
    [1%R; 1%R] !! 0 = Some (p_weight p).
Proof.
  apply (resample_copies_particles (Rnd := scripted R) [1; 1] second_heavy
           (mkFilter 2 true
              [mkParticle 1 4%R 5%R 6%R 1%R; mkParticle 1 4%R 5%R 6%R 1%R]
              [1%R; 1%R])).
  - reflexivity.
  - simpl. lia.
Defined.

(** The all-zero particle set, through the amended statement. *)
Lemma resample_never_fails_witness :
  exists pf',
    resample (Rnd := scripted R) [] starved = Done pf' /\
    num_particles pf' = num_particles starved /\
    length (particles pf') = num_particles starved /\
    weights pf' = map p_weight (particles pf') /\
    forall i, i < num_particles starved ->
      exists p,
        particles starved !! resample_index (Rnd := scripted R) starved [] i = Some p /\
        particles pf' !! i = Some p.
Proof.
  apply (proj2 (resample_never_fails (Rnd := scripted R) [] starved)).
  intros j Hj. simpl in Hj.
  destruct j as [|[|j]]; [apply Nat.ltb_lt; reflexivity .. | lia].
Defined.

(** ** [prediction] *)

(** Straight ahead for one second at speed 2 from the origin. *)
Lemma closed_form_straight : closed_form 1 2 0 0 0 0 = (2, 0, 0)%R.
Proof.
  unfold closed_form. rewrite Rabs_R0.
  destruct (Rlt_dec 0 0) as [H | _]; [lra|].
  rewrite cos_0, sin_0. repeat f_equal; lra.
Qed.

(** Yaw rate 0, velocity 2, one second, no noise, from the origin: the
    particle ends at (2, 0) with heading 0. *)
Lemma prediction_closed_form_witness :
  exists pf',
    prediction (Rnd := scripted R) 1%R (0, 0, 0)%R 2%R 0%R one_particle = Done pf' /\
    particles pf' !! 0 = Some (mkParticle 0 2%R 0%R 0%R 1%R).
Proof.
  destruct (prediction_closed_form (Rnd := scripted R) 1%R (0, 0, 0)%R 2%R 0%R
              one_particle) as (pf' & H & _ & Hall).
  { split; reflexivity. }
  exists pf'. split; [exact H|].
  pose proof (Hall 0 (mkParticle 0 0%R 0%R 0%R 1%R) eq_refl) as H0.
  cbn [p_x p_y p_theta p_id] in H0. rewrite closed_form_straight in H0.
  destruct (prediction_noise (0, 0, 0)%R 0) as [[noise_x noise_y] noise_theta].
  destruct H0 as [_ H0]. apply H0; [intros m g; reflexivity | reflexivity].
Defined.

(** On that input no division operator changes the result. *)
Lemma prediction_zero_yaw_rate_witness :
  ltb (of_Z 0) (fabs (of_Z 0 : R)) = false /\
  (forall d : R -> R -> R,
     prediction (D := with_div R_double d) (Rnd := scripted R)
       1%R (0, 0, 0)%R 2%R 0%R one_particle =
     prediction (Rnd := scripted R) 1%R (0, 0, 0)%R 2%R 0%R one_particle) /\
  exists pf',
    prediction (Rnd := scripted R) 1%R (0, 0, 0)%R 2%R 0%R one_particle = Done pf' /\
    forall i p, particles one_particle !! i = Some p ->
      particles pf' !! i =
      Some (let '(noise_x, noise_y, noise_theta) :=
              prediction_noise (Rnd := scripted R) (0, 0, 0)%R i in
            mkParticle (p_id p)
              (p_x p + 2 * 1 * cos (p_theta p) + noise_x)
              (p_y p + 2 * 1 * sin (p_theta p) + noise_y)
              (p_theta p + noise_theta) 1)%R.
Proof.
  apply (prediction_zero_yaw_rate (Rnd := scripted R) 1%R (0, 0, 0)%R 2%R
           one_particle).
  split; reflexivity.
Defined.

(** ** The invariant *)

(** The scripted generator at the end of its script stays there. *)
Lemma scripted_after_nil (ws : list R) (k : nat) :
  after (@discrete_distribution R (list nat) (scripted R) ws) k [] = [].
Proof.
  induction k as [|k IH]; [reflexivity|].
  change (after (@discrete_distribution R (list nat) (scripted R) ws) (S k) [])
    with (snd (@discrete_distribution R (list nat) (scripted R) ws
                 (after (@discrete_distribution R (list nat) (scripted R) ws) k []))).
  rewrite IH. reflexivity.
Qed.

(** One cycle of the filter, [init], [prediction], [updateWeights] (here
    without observations) and [resample], returns at every step and ends in
    a state that satisfies the invariant. *)
Lemma filter_invariant_witness :
  exists pf0 pf1 pf2 pf3,
    init (Rnd := scripted R) 0%R 0%R 0%R (0, 0, 0)%R one_particle = Done pf0 /\
    prediction (Rnd := scripted R) 1%R (0, 0, 0)%R 2%R 0%R pf0 = Done pf1 /\
    updateWeights 50%R (3 / 10, 3 / 10)%R [] origin_map pf1 = Done pf2 /\
    resample (Rnd := scripted R) [] pf2 = Done pf3 /\
    num_particles pf3 = 75 /\
    length (particles pf3) = 75 /\ length (weights pf3) = 75 /\
    forall i, i < 75 ->
      exists p, particles pf3 !! i = Some p /\ weights pf3 !! i = Some (p_weight p).
Proof.
  destruct (init_spec (Rnd := scripted R) 0%R 0%R 0%R (0, 0, 0)%R one_particle)
    as (pf0 & H0 & _).
  pose proof (reach_init (L := R_libm) _ _ _ _ _ _ H0) as R0.
  destruct (reachable_wf pf0 R0) as [W0 _].
  destruct (prediction_returns (Rnd := scripted R) 1%R (0, 0, 0)%R 2%R 0%R pf0 W0)
    as [pf1 H1].
  pose proof (reach_prediction _ _ _ _ _ _ R0 H1) as R1.
  destruct (reachable_wf pf1 R1) as [W1 _].
  destruct (wf_lengths pf1 W1) as [Lp1 Lw1].
  destruct (updateWeights_total 50%R (3 / 10, 3 / 10)%R [] origin_map pf1)
    as (pf2 & H2 & _); [lia | lia | |].
  { intros j p _ _. apply weigh_particle_Done. left. reflexivity. }
  pose proof (reach_updateWeights _ _ _ _ _ _ R1 H2) as R2.
  destruct (reachable_wf pf2 R2) as [W2 N2].
  destruct (wf_lengths pf2 W2) as [Lp2 _].
  destruct (resample_total (Rnd := scripted R) [] pf2) as (pf3 & H3 & _).
  { intros j Hj. unfold resample_index. cbv zeta.
    rewrite scripted_after_nil. simpl. lia. }
  exists pf0, pf1, pf2, pf3.
  split; [exact H0|]. split; [exact H1|]. split; [exact H2|]. split; [exact H3|].
  apply (filter_invariant (L := R_libm) (Rnd := scripted R) pf3).
  apply (reach_resample _ _ _ R2 H3).
Defined.

(** ** [UpdateParticleWeight] *)


(** A particle aligned with its single landmark has the peak density as
    weight, [1/(2 pi sigma_x sigma_y)]. *)
Lemma likelihood_coincident (sigma_x sigma_y : R) (o mu : @LandmarkObs R) :
  o_x o = o_x mu -> o_y o = o_y mu ->
  likelihood sigma_x sigma_y [o] [mu] = (1 / (2 * PI * sigma_x * sigma_y))%R.
Proof.
  intros Hx Hy. simpl. unfold gaussian_density. rewrite Hx, Hy.
  replace (- (o_x mu - o_x mu) ^ 2 / (2 * sigma_x ^ 2)
           - (o_y mu - o_y mu) ^ 2 / (2 * sigma_y ^ 2))%R with 0%R
    by (unfold Rdiv; ring).
  rewrite exp_0. ring.
Qed.

(** ** [updateWeights] *)

(** The landmark at the origin is within 50 m of the particle there. *)
Lemma origin_in_range :
  GetLandmarksWithinSensorRange (mkParticle 0 0%R 0%R 0%R 1%R)
    (landmark_list origin_map) 50%R [] = [mkObs 7 0%R 0%R].
Proof.
  cbn [GetLandmarksWithinSensorRange origin_map landmark_list app
       p_x p_y x_f y_f id_i].
  unfold dist. cbn [leb fsqrt add sub mul R_double].
  rewrite bool_decide_eq_true_2; [reflexivity|].
  replace ((0 - 0) * (0 - 0) + (0 - 0) * (0 - 0))%R with 0%R by ring.
  rewrite sqrt_0. lra.
Qed.

(** The particle at the origin sees the landmark where the map has it:
    its weight becomes the peak density [1/(2 pi 0.09)]. *)
Lemma weigh_origin (i : nat) :
  weigh_particle 50%R (3 / 10, 3 / 10)%R [mkObs 0 0%R 0%R] origin_map i
    (mkParticle 0 0%R 0%R 0%R 1%R) =
  Done (mkParticle 0 0%R 0%R 0%R (1 / (2 * PI * (3 / 10) * (3 / 10)))%R).
Proof.
  unfold weigh_particle. rewrite origin_in_range.
  rewrite dataAssociation_Done by discriminate.
  cbn [bind ConvertToParticleCoordinates map]. rewrite matched_single.
  unfold UpdateParticleWeight. simpl. unfold set_weight. simpl.
  do 2 f_equal.
  match goal with
  | |- context [exp ?a] => replace a with 0%R by (unfold Rdiv; ring)
  end.
  rewrite exp_0. unfold Rdiv. ring.
Qed.

(** One call of [updateWeights] on the one-particle filter. *)
Lemma updateWeights_origin :
  updateWeights 50%R (3 / 10, 3 / 10)%R [mkObs 0 0%R 0%R] origin_map one_particle =
  Done (mkFilter 1 true
          [mkParticle 0 0%R 0%R 0%R (1 / (2 * PI * (3 / 10) * (3 / 10)))%R]
          [(1 / (2 * PI * (3 / 10) * (3 / 10)))%R]).
Proof.
  unfold updateWeights, one_particle. cbn [num_particles for_loop].
  unfold updateWeights_body. cbn [particles load lookup list_lookup bind].
  rewrite weigh_origin. reflexivity.
Qed.

(** A second call with the same arguments leaves that result as it is. *)
Lemma updateWeights_idempotent_witness :
  exists pf2,
    updateWeights 50%R (3 / 10, 3 / 10)%R [mkObs 0 0%R 0%R] origin_map
      (mkFilter 1 true
         [mkParticle 0 0%R 0%R 0%R (1 / (2 * PI * (3 / 10) * (3 / 10)))%R]
         [(1 / (2 * PI * (3 / 10) * (3 / 10)))%R]) = Done pf2 /\
    weights pf2 = [(1 / (2 * PI * (3 / 10) * (3 / 10)))%R] /\
    particles pf2 =
      [mkParticle 0 0%R 0%R 0%R (1 / (2 * PI * (3 / 10) * (3 / 10)))%R].
Proof.
  apply (updateWeights_idempotent 50%R (3 / 10, 3 / 10)%R [mkObs 0 0%R 0%R]
           origin_map one_particle).
  apply updateWeights_origin.
Defined.

(** The particle is where it was. *)
Lemma updateWeights_frame_witness :
  exists p',
    [mkParticle 0 0%R 0%R 0%R (1 / (2 * PI * (3 / 10) * (3 / 10)))%R] !! 0
      = Some p' /\
    p_id p' = 0%Z /\ p_x p' = 0%R /\ p_y p' = 0%R /\ p_theta p' = 0%R.
Proof.
  destruct (updateWeights_frame 50%R (3 / 10, 3 / 10)%R [mkObs 0 0%R 0%R]
              origin_map one_particle _ updateWeights_origin)
    as (_ & _ & _ & _ & Hall).
  apply (Hall 0 (mkParticle 0 0%R 0%R 0%R 1%R)). reflexivity.
Defined.

(** * Further properties of the code *)

(** ** [GetLandmarksWithinSensorRange] *)

Section Culling.
Context {F : Type} {D : Double F}.
Implicit Types (p : @Particle F) (lm : @single_landmark_s F).

Lemma GetLandmarksWithinSensorRange_app p (landmarks : list (@single_landmark_s F))
    (range : F) (remaining : list (@LandmarkObs F)) :
  GetLandmarksWithinSensorRange p landmarks range remaining =
  remaining ++ map as_observation (List.filter (within_range p range) landmarks).
Proof.
  revert remaining. induction landmarks as [|lm rest IH]; intros remaining.
  - simpl. rewrite app_nil_r. reflexivity.
  - cbn [GetLandmarksWithinSensorRange List.filter].
    fold (within_range p range lm). destruct (within_range p range lm).
    + rewrite IH, <- app_assoc. reflexivity.
    + apply IH.
Qed.

(** X1: the landmarks pushed are exactly the map landmarks that pass the
    range test, in map order, with the map's identifiers and coordinates;
    what the output vector held before stays in front. *)
Theorem GetLandmarksWithinSensorRange_in_map_order p
    (landmarks : list (@single_landmark_s F)) (range : F)
    (remaining : list (@LandmarkObs F)) :
  GetLandmarksWithinSensorRange p landmarks range remaining =
    remaining ++ GetLandmarksWithinSensorRange p landmarks range [] /\
  GetLandmarksWithinSensorRange p landmarks range [] =
    map as_observation (List.filter (within_range p range) landmarks).
Proof.
  rewrite (GetLandmarksWithinSensorRange_app p landmarks range remaining).
  rewrite (GetLandmarksWithinSensorRange_app p landmarks range []).
  split; reflexivity.
Qed.

End Culling.

(** ** [dataAssociation] *)

Section AssociationResults.
Context {F : Type} {D : Double F}.
Implicit Types (predicted observations : list (@LandmarkObs F)) (o : @LandmarkObs F).

Lemma matched_names_candidate predicted o :
  predicted <> [] -> names_candidate predicted (matched predicted o).
Proof.
  intros Hne. unfold matched.
  destruct (lookup_lt_is_Some_2 predicted (find_closest predicted o)
              (find_closest_lt predicted o Hne)) as [c Hc].
  rewrite Hc. exists (find_closest predicted o), c. auto.
Qed.

Lemma dataAssociation_cases predicted observations :
  (predicted = [] /\ observations <> [] /\
   dataAssociation predicted observations = Undefined) \/
  dataAssociation predicted observations =
    Done (map (matched predicted) observations).
Proof.
  destruct predicted as [|c predicted'].
  - destruct observations as [|o rest].
    + right. reflexivity.
    + left. split; [reflexivity|]. split; [discriminate | reflexivity].
  - right. apply dataAssociation_Done. discriminate.
Qed.

(** X2: a call that returns has rewritten every observation, one for one,
    to the index of a candidate that exists and to that candidate's
    coordinates. *)
Theorem dataAssociation_names_candidates predicted observations result :
  dataAssociation predicted observations = Done result ->
  length result = length observations /\
  Forall (names_candidate predicted) result.
Proof.
  intros H.
  destruct (dataAssociation_cases predicted observations)
    as [(_ & _ & Hu) | Hd]; [congruence|].
  rewrite Hd in H. injection H as <-.
  split; [apply length_map|].
  destruct predicted as [|c predicted'].
  - destruct observations as [|o rest]; [constructor | discriminate Hd].
  - clear Hd. induction observations as [|o rest IH]; simpl; constructor.
    + apply matched_names_candidate. discriminate.
    + exact IH.
Qed.

(** X3: the call runs into the read outside [predicted] exactly when
    there is no candidate and at least one observation; in every other case
    it returns. *)
Theorem dataAssociation_undefined_iff predicted observations :
  (dataAssociation predicted observations = Undefined <->
   predicted = [] /\ observations <> []) /\
  ((exists result, dataAssociation predicted observations = Done result) <->
   predicted <> [] \/ observations = []).
Proof.
  destruct (dataAssociation_cases predicted observations)
    as [(Hp & Ho & Hu) | Hd].
  - split; split.
    + auto.
    + intros _. exact Hu.
    + intros [r Hr]. congruence.
    + intros [Hne | He]; congruence.
  - split; split.
    + intros Hu. congruence.
    + intros [Hp Ho]. subst predicted.
      destruct observations as [|o rest]; [congruence | discriminate Hd].
    + intros _. destruct predicted as [|c rest]; [right | left; discriminate].
      destruct observations as [|o rest]; [reflexivity | discriminate Hd].
    + intros _. eauto.
Qed.

End AssociationResults.

(** ** [UpdateParticleWeight] and [updateWeights] *)

Section WeightsDefined.
Context {F : Type} {D : Double F} {L : Libm F}.
Implicit Types (p : @Particle F) (pf : @ParticleFilter F).

Lemma weight_loop_Done_inv (l1 sigmax sigmay : F)
    (obs transformed : list (@LandmarkObs F)) (i : nat) (w w' : F) :
  weight_loop l1 sigmax sigmay obs i transformed w = Done w' ->
  obs = [] \/ i + length obs <= length transformed.
Proof.
  revert i w. induction obs as [|o rest IH]; intros i w H; [left; reflexivity|].
  right. cbn [weight_loop] in H.
  apply bind_Done_inv in H as (m & Hm & H).
  apply load_Done, lookup_lt_Some in Hm.
  destruct (IH _ _ H) as [-> | Hle]; simpl in *; lia.
Qed.

(** X4: [UpdateParticleWeight] returns exactly when there is a matched
    mean for every observation; with fewer means than observations it reads
    outside [transformed_observations]. *)
Theorem UpdateParticleWeight_returns_iff (curr_p : @Particle F) (particle_index : nat)
    (std_landmark : F * F) (observations transformed : list (@LandmarkObs F)) :
  (exists p', UpdateParticleWeight curr_p particle_index std_landmark
                observations transformed = Done p') <->
  length observations <= length transformed.
Proof.
  unfold UpdateParticleWeight. split.
  - intros [p' H]. apply bind_Done_inv in H as (w & Hw & _).
    apply weight_loop_Done_inv in Hw as [-> | Hle]; simpl in *; lia.
  - intros Hle.
    destruct (weight_loop_Done
                (of_Z 1 / (of_Z 2 * M_PI * std_landmark.1 * std_landmark.2))%dbl
                std_landmark.1 std_landmark.2 observations transformed 0 (of_Z 1))
      as [w Hw]; [simpl; lia|].
    rewrite Hw. simpl. eauto.
Qed.

Lemma weigh_particle_Done_inv sensor_range std_landmark
    (observations : list (@LandmarkObs F)) (map_landmarks : @Map F) i p p' :
  weigh_particle sensor_range std_landmark observations map_landmarks i p = Done p' ->
  observations = [] \/
  GetLandmarksWithinSensorRange p (landmark_list map_landmarks) sensor_range [] <> [].
Proof.
  unfold weigh_particle. intros H.
  apply bind_Done_inv in H as (chosen & Hd & _).
  destruct (dataAssociation_cases
              (GetLandmarksWithinSensorRange p (landmark_list map_landmarks)
                 sensor_range [])
              (ConvertToParticleCoordinates p observations))
    as [(_ & _ & Hu) | _]; [congruence|].
  destruct observations as [|o rest]; [left; reflexivity | right].
  intros Hnil. rewrite Hnil in Hd. discriminate Hd.
Qed.

Lemma weigh_particle_no_observations sensor_range std_landmark
    (map_landmarks : @Map F) i p :
  weigh_particle sensor_range std_landmark [] map_landmarks i p =
  Done (set_weight (of_Z 1) p).
Proof. reflexivity. Qed.

(** X5: without observations [updateWeights] returns on every particle set
    that satisfies the invariant, whatever the map and the sensor range, and
    sets every weight to 1, leaving the poses as they are. *)
Theorem updateWeights_without_observations sensor_range std_landmark
    (map_landmarks : @Map F) pf :
  wf pf ->
  exists pf',
    updateWeights sensor_range std_landmark [] map_landmarks pf = Done pf' /\
    particles pf' = map (set_weight (of_Z 1)) (particles pf) /\
    weights pf' = replicate (num_particles pf) (of_Z 1).
Proof.
  intros Hwf. destruct (wf_lengths pf Hwf) as [Hlp Hlw].
  destruct (updateWeights_total sensor_range std_landmark [] map_landmarks pf)
    as (pf' & H & _ & _ & Hlp' & Hlw' & Hdone & _); [lia | lia | |].
  { intros j p _ _. rewrite weigh_particle_no_observations. eauto. }
  exists pf'. split; [exact H|]. split.
  - apply list_eq. intros j. rewrite list_lookup_fmap.
    destruct (decide (j < num_particles pf)) as [Hj | Hj].
    + destruct (Hdone j Hj) as (p & p' & Hp & Hw & Hp' & _).
      rewrite weigh_particle_no_observations in Hw. injection Hw as <-.
      rewrite Hp, Hp'. reflexivity.
    + rewrite !lookup_ge_None_2 by lia. reflexivity.
  - apply list_eq. intros j.
    destruct (decide (j < num_particles pf)) as [Hj | Hj].
    + destruct (Hdone j Hj) as (p & p' & Hp & Hw & _ & Hw').
      rewrite weigh_particle_no_observations in Hw. injection Hw as <-.
      rewrite Hw', lookup_replicate_2 by lia. reflexivity.
    + rewrite !lookup_ge_None_2; [reflexivity | rewrite length_replicate; lia | lia].
Qed.

(** X6: on a particle set that satisfies the invariant [updateWeights]
    returns exactly when there is no observation or every particle has at
    least one landmark within sensor range; otherwise some particle is
    matched against an empty candidate vector. *)
Theorem updateWeights_returns_iff sensor_range std_landmark
    (observations : list (@LandmarkObs F)) (map_landmarks : @Map F) pf :
  wf pf ->
  ((exists pf', updateWeights sensor_range std_landmark observations
                  map_landmarks pf = Done pf') <->
   observations = [] \/
   Forall (fun p => GetLandmarksWithinSensorRange p (landmark_list map_landmarks)
                      sensor_range [] <> []) (particles pf)).
Proof.
  intros Hwf. destruct (wf_lengths pf Hwf) as [Hlp Hlw]. split.
  - intros [pf' H].
    apply updateWeights_Done_inv in H as (_ & _ & _ & _ & Hdone & _).
    destruct observations as [|o rest]; [left; reflexivity | right].
    apply Forall_lookup. intros j p Hp.
    destruct (Hdone j) as (q & q' & Hq & Hw & _).
    { apply lookup_lt_Some in Hp. lia. }
    assert (q = p) as -> by congruence.
    apply weigh_particle_Done_inv in Hw as [Hnil | Hne]; [discriminate | exact Hne].
  - intros Hok.
    destruct (updateWeights_total sensor_range std_landmark observations
                map_landmarks pf) as (pf' & H & _); [lia | lia | | eauto].
    intros j p _ Hp. apply weigh_particle_Done.
    destruct Hok as [-> | Hall]; [left; reflexivity | right].
    apply (proj1 (Forall_lookup _ _) Hall j p Hp).
Qed.

End WeightsDefined.

(** ** [init], [prediction] and [resample] *)

Section Operations.
Context {F : Type} {D : Double F} {L : Libm F} {G : Type} {Rnd : Random F G}.
Implicit Types (p : @Particle F) (pf : @ParticleFilter F).

(** X7: [init] returns on every object, with 75 particles numbered 0 to 74
    in order, every weight 1 in both places, and the flag set. *)
Theorem init_numbers_particles (x y theta : F) (std : F * F * F) pf0 :
  exists pf,
    init x y theta std pf0 = Done pf /\
    num_particles pf = 75 /\ is_initialized pf = true /\
    map p_id (particles pf) = map Z.of_nat (seq 0 75) /\
    map p_weight (particles pf) = replicate 75 (of_Z 1) /\
    weights pf = replicate 75 (of_Z 1).
Proof.
  destruct (init_spec x y theta std pf0) as (pf & H & Hn & Hi & Hlp & Hlw & Hall).
  exists pf. repeat split; try assumption.
  - apply list_eq. intros i. rewrite !list_lookup_fmap.
    destruct (decide (i < 75)) as [Hlt | Hge].
    + destruct (Hall i Hlt) as [-> _]. rewrite lookup_seq_lt by lia.
      destruct (init_sample x y theta std i) as [[? ?] ?]. reflexivity.
    + rewrite !lookup_ge_None_2; [reflexivity | rewrite length_seq; lia | lia].
  - apply list_eq. intros i. rewrite list_lookup_fmap.
    destruct (decide (i < 75)) as [Hlt | Hge].
    + destruct (Hall i Hlt) as [-> _]. rewrite lookup_replicate_2 by lia.
      destruct (init_sample x y theta std i) as [[? ?] ?]. reflexivity.
    + rewrite !lookup_ge_None_2; [reflexivity | rewrite length_replicate; lia | lia].
  - apply list_eq. intros i.
    destruct (decide (i < 75)) as [Hlt | Hge].
    + destruct (Hall i Hlt) as [_ ->]. rewrite lookup_replicate_2 by lia.
      reflexivity.
    + rewrite !lookup_ge_None_2; [reflexivity | rewrite length_replicate; lia | lia].
Qed.

(** X8: [init] forgets the state it is called on: called with the same
    arguments on any two objects it produces the same particle set. *)
Theorem init_forgets_previous_state (x y theta : F) (std : F * F * F) pf0 pf1 :
  init x y theta std pf0 = init x y theta std pf1.
Proof.
  destruct (init_spec x y theta std pf0) as (pfa & -> & Hna & Hia & Hlpa & Hlwa & Ha).
  destruct (init_spec x y theta std pf1) as (pfb & -> & Hnb & Hib & Hlpb & Hlwb & Hb).
  f_equal. destruct pfa as [na ia psa wsa], pfb as [nb ib psb wsb]. simpl in *.
  f_equal; try congruence.
  - apply list_eq. intros i. destruct (decide (i < 75)) as [Hlt | Hge].
    + destruct (Ha i Hlt) as [-> _]. destruct (Hb i Hlt) as [-> _]. reflexivity.
    + rewrite !lookup_ge_None_2 by lia. reflexivity.
  - apply list_eq. intros i. destruct (decide (i < 75)) as [Hlt | Hge].
    + destruct (Ha i Hlt) as [_ ->]. destruct (Hb i Hlt) as [_ ->]. reflexivity.
    + rewrite !lookup_ge_None_2 by lia. reflexivity.
Qed.

Lemma p_id_moved delta_t velocity yaw_rate p (noise : F * F * F) :
  p_id (moved delta_t velocity yaw_rate p noise) = p_id p.
Proof.
  unfold moved. destruct (motion _ _ _ _) as [[? ?] ?].
  destruct noise as [[? ?] ?]. reflexivity.
Qed.

(** X9: on a particle set that satisfies the invariant, [prediction]
    keeps the number of particles, the flag and every identifier, in order,
    and resets every weight to 1. *)
Theorem prediction_keeps_ids_resets_weights delta_t std_pos velocity yaw_rate pf pf' :
  wf pf ->
  prediction delta_t std_pos velocity yaw_rate pf = Done pf' ->
  num_particles pf' = num_particles pf /\
  is_initialized pf' = is_initialized pf /\
  map p_id (particles pf') = map p_id (particles pf) /\
  map p_weight (particles pf') = replicate (num_particles pf) (of_Z 1) /\
  weights pf' = replicate (num_particles pf) (of_Z 1).
Proof.
  intros Hwf H. destruct (wf_lengths pf Hwf) as [Hlp Hlw].
  destruct (prediction_spec delta_t std_pos velocity yaw_rate pf)
    as (pf1 & H1 & Hn & Hi & Hlp' & Hlw' & Hdone & _); [lia | lia |].
  assert (pf1 = pf') as -> by congruence.
  repeat split; try assumption.
  - apply list_eq. intros i. rewrite !list_lookup_fmap.
    destruct (decide (i < num_particles pf)) as [Hlt | Hge].
    + destruct (Hdone i Hlt) as (p & -> & -> & _). simpl.
      rewrite p_id_moved. reflexivity.
    + rewrite !lookup_ge_None_2 by lia. reflexivity.
  - apply list_eq. intros i. rewrite list_lookup_fmap.
    destruct (decide (i < num_particles pf)) as [Hlt | Hge].
    + destruct (Hdone i Hlt) as (p & _ & -> & _). simpl.
      rewrite p_weight_moved, lookup_replicate_2 by lia. reflexivity.
    + rewrite !lookup_ge_None_2; [reflexivity | rewrite length_replicate; lia | lia].
  - apply list_eq. intros i.
    destruct (decide (i < num_particles pf)) as [Hlt | Hge].
    + destruct (Hdone i Hlt) as (p & _ & _ & ->).
      rewrite lookup_replicate_2 by lia. reflexivity.
    + rewrite !lookup_ge_None_2; [reflexivity | rewrite length_replicate; lia | lia].
Qed.

(** X10: [resample] returns exactly when every index it draws lies within
    the particle vector; an index outside it is read as it comes. *)
Theorem resample_returns_iff (gen : G) pf :
  (exists pf', resample gen pf = Done pf') <->
  (forall j, j < num_particles pf ->
     resample_index pf gen j < length (particles pf)).
Proof.
  split.
  - intros [pf' H] j Hj.
    apply resample_Done_inv in H as (_ & _ & _ & _ & Hdrawn).
    destruct (Hdrawn j Hj) as (p & Hp & _).
    apply lookup_lt_Some in Hp. exact Hp.
  - intros Hrange. destruct (resample_total gen pf Hrange) as (pf' & H & _).
    eauto.
Qed.

(** X11: [resample] invents nothing: every particle of the new generation
    is a particle of the old one, and every new weight is the weight of an
    old particle. *)
Theorem resample_draws_from_old (gen : G) pf pf' :
  resample gen pf = Done pf' ->
  (forall p, p ∈ particles pf' -> p ∈ particles pf) /\
  (forall w, w ∈ weights pf' -> exists p, p ∈ particles pf /\ w = p_weight p).
Proof.
  intros H. apply resample_Done_inv in H as (_ & _ & Hlp & Hlw & Hdrawn).
  split.
  - intros p Hp. apply list_elem_of_lookup in Hp as [i Hi].
    destruct (Hdrawn i) as (q & Hq & Hq' & _).
    { apply lookup_lt_Some in Hi. lia. }
    assert (q = p) as -> by congruence.
    apply (list_elem_of_lookup_2 _ _ _ Hq).
  - intros w Hw. apply list_elem_of_lookup in Hw as [i Hi].
    destruct (Hdrawn i) as (q & Hq & _ & Hq').
    { apply lookup_lt_Some in Hi. lia. }
    exists q. split; [apply (list_elem_of_lookup_2 _ _ _ Hq) | congruence].
Qed.

End Operations.

(** ** Culling and the observation transform, over the reals *)

Section Geometry.
Implicit Types (p : @Particle R) (o c : @LandmarkObs R) (lm : @single_landmark_s R).

Lemma within_range_true p (range : R) lm :
  within_range p range lm = true <->
  (dist (p_x p) (p_y p) (x_f lm) (y_f lm) <= range)%R.
Proof.
  unfold within_range. cbn [leb R_double]. split.
  - intros H. apply bool_decide_eq_true_1 in H. exact H.
  - apply bool_decide_eq_true_2.
Qed.

Lemma dist_nonneg (x1 y1 x2 y2 : R) : (0 <= dist x1 y1 x2 y2)%R.
Proof. unfold dist. cbn [fsqrt R_double]. apply sqrt_pos. Qed.

(** X12: every landmark pushed lies within the sensor range of the
    particle, so a negative sensor range pushes none. *)
Theorem GetLandmarksWithinSensorRange_within_range p
    (landmarks : list (@single_landmark_s R)) (range : R)
    (remaining : list (@LandmarkObs R)) :
  Forall (fun c => (dist (p_x p) (p_y p) (o_x c) (o_y c) <= range)%R)
    (GetLandmarksWithinSensorRange p landmarks range []) /\
  ((range < 0)%R ->
   GetLandmarksWithinSensorRange p landmarks range remaining = remaining).
Proof.
  rewrite !GetLandmarksWithinSensorRange_app. split.
  - cbn [app]. induction landmarks as [|lm rest IH]; cbn [List.filter].
    { constructor. }
    destruct (within_range p range lm) eqn:Hin; [|exact IH].
    cbn [map]. constructor; [|exact IH].
    apply within_range_true in Hin. exact Hin.
  - intros Hneg.
    assert (Hnone : List.filter (within_range p range) landmarks = []).
    { induction landmarks as [|lm rest IH]; cbn [List.filter]; [reflexivity|].
      destruct (within_range p range lm) eqn:Hin; [|exact IH].
      apply within_range_true in Hin.
      pose proof (dist_nonneg (p_x p) (p_y p) (x_f lm) (y_f lm)). lra. }
    rewrite Hnone. cbn [map]. apply app_nil_r.
Qed.

(** X13: widening the sensor range loses no landmark and keeps the order:
    what a smaller range returns is a sublist of what a larger one
    returns. *)
Theorem GetLandmarksWithinSensorRange_monotone p
    (landmarks : list (@single_landmark_s R)) (range1 range2 : R) :
  (range1 <= range2)%R ->
  sublist (GetLandmarksWithinSensorRange p landmarks range1 [])
          (GetLandmarksWithinSensorRange p landmarks range2 []).
Proof.
  intros Hle. rewrite !GetLandmarksWithinSensorRange_app. cbn [app].
  induction landmarks as [|lm rest IH]; cbn [List.filter]; [constructor|].
  destruct (within_range p range1 lm) eqn:H1.
  - assert (H2 : within_range p range2 lm = true).
    { apply within_range_true. apply within_range_true in H1. lra. }
    rewrite H2. cbn [map]. apply sublist_skip, IH.
  - destruct (within_range p range2 lm); cbn [map];
      [apply sublist_cons, IH | exact IH].
Qed.

(** X14: the observation transform is a rigid motion: the distance
    between two transformed observations is the distance between the
    observations as received, whatever the pose of the particle; the
    sequence keeps its length and order. *)
Theorem ConvertToParticleCoordinates_isometry p
    (observations : list (@LandmarkObs R)) (i j : nat) o1 o2 :
  observations !! i = Some o1 -> observations !! j = Some o2 ->
  length (ConvertToParticleCoordinates p observations) = length observations /\
  exists c1 c2,
    ConvertToParticleCoordinates p observations !! i = Some c1 /\
    ConvertToParticleCoordinates p observations !! j = Some c2 /\
    o_id c1 = o_id o1 /\ o_id c2 = o_id o2 /\
    distance c1 c2 = distance o1 o2.
Proof.
  intros H1 H2. unfold ConvertToParticleCoordinates.
  split; [apply length_map|].
  rewrite !list_lookup_fmap, H1, H2. simpl.
  eexists. eexists. split; [reflexivity|]. split; [reflexivity|].
  split; [reflexivity|]. split; [reflexivity|].
  unfold distance, dist. cbn.
  pose proof (sin2_cos2 (p_theta p)) as Hsc. unfold Rsqr in Hsc.
  f_equal.
  set (s := sin (p_theta p)) in *. set (co := cos (p_theta p)) in *.
  match goal with
  | |- ?l = ?r => replace l with (r * (s * s + co * co))%R by ring
  end.
  rewrite Hsc. ring.
Qed.

End Geometry.

(** ** Nearest neighbour by computed distance *)

Section NearestComputed.
Context {F : Type} {D : Double F}.
Implicit Types (predicted observations : list (@LandmarkObs F)) (o c : @LandmarkObs F).

Lemma ordered_subseteq (vs ws : list F) : ws ⊆ vs -> ordered vs -> ordered ws.
Proof. intros Hsub H a b c Ha Hb Hc. apply H; apply Hsub; assumption. Qed.

Lemma ordered_asym (vs : list F) (a b : F) :
  ordered vs -> a ∈ vs -> b ∈ vs -> ltb a b = true -> ltb b a = false.
Proof.
  intros H Ha Hb Hab.
  destruct (ltb b a) eqn:Hba; [|reflexivity].
  destruct (H a b a Ha Hb Ha) as (Hirr & Htrans & _).
  rewrite (Htrans Hab Hba) in Hirr. discriminate.
Qed.

(** What the loop over [j] has found when it ends, when the values it
    compares are ordered: nothing below the bound it started from, or the
    first of the candidates that no candidate is computed nearer than. *)
Lemma closest_loop_ordered o predicted j d (closest : nat) :
  ordered (d :: map (curr_dist o) predicted) ->
  let r := closest_loop (o_x o) (o_y o) predicted j d closest in
  (snd r = closest /\ fst r = d /\
   forall k ck, predicted !! k = Some ck -> ltb (curr_dist o ck) d = false) \/
  (exists k ck, snd r = j + k /\ predicted !! k = Some ck /\
     fst r = curr_dist o ck /\ ltb (curr_dist o ck) d = true /\
     (forall k' ck', predicted !! k' = Some ck' ->
        ltb (curr_dist o ck') (curr_dist o ck) = false) /\
     (forall k' ck', k' < k -> predicted !! k' = Some ck' ->
        ltb (curr_dist o ck) (curr_dist o ck') = true)).
Proof.
  revert j d closest. induction predicted as [|pj rest IH]; intros j d closest Hord.
  - left. repeat split. intros k ck Hk. discriminate.
  - cbn [closest_loop].
    change (dist (o_x o) (o_y o) (o_x pj) (o_y pj)) with (curr_dist o pj).
    assert (Hd : d ∈ d :: map (curr_dist o) (pj :: rest)) by apply list_elem_of_here.
    assert (Hdj : curr_dist o pj ∈ d :: map (curr_dist o) (pj :: rest)).
    { apply list_elem_of_further, list_elem_of_here. }
    assert (Hin : forall k ck, rest !! k = Some ck ->
              curr_dist o ck ∈ d :: map (curr_dist o) (pj :: rest)).
    { intros k ck Hk. do 2 apply list_elem_of_further.
      apply (list_elem_of_fmap_2 (curr_dist o)), (list_elem_of_lookup_2 _ _ _ Hk). }
    destruct (ltb (curr_dist o pj) d) eqn:Hlt.
    + destruct (IH (S j) (curr_dist o pj) j)
        as [(Hc & Hf & Hall) | (k & ck & Hc & Hk & Hf & Hlt' & Hmin & Hfirst)].
      { eapply ordered_subseteq; [|exact Hord].
        intros v Hv. apply list_elem_of_further, Hv. }
      * right. exists 0, pj. rewrite Hc, Hf, Nat.add_0_r.
        repeat split; try assumption; try reflexivity.
        -- intros [|k'] ck' Hk'; simpl in Hk'.
           ++ injection Hk' as <-.
              apply (Hord (curr_dist o pj) (curr_dist o pj) (curr_dist o pj));
                assumption.
           ++ apply (Hall k' ck' Hk').
        -- intros k' ck' Hk'. lia.
      * right. exists (S k), ck. rewrite Hc, Hf.
        repeat split; [lia | exact Hk | | |].
        -- destruct (Hord (curr_dist o ck) (curr_dist o pj) d) as (_ & Htrans & _); eauto.
        -- intros [|k'] ck' Hk'; simpl in Hk'.
           ++ injection Hk' as <-.
              apply (ordered_asym _ _ _ Hord); eauto.
           ++ apply (Hmin k' ck' Hk').
        -- intros [|k'] ck' Hl Hk'; simpl in Hk'.
           ++ injection Hk' as <-. exact Hlt'.
           ++ apply (Hfirst k' ck'); [lia | exact Hk'].
    + destruct (IH (S j) d closest)
        as [(Hc & Hf & Hall) | (k & ck & Hc & Hk & Hf & Hlt' & Hmin & Hfirst)].
      { eapply ordered_subseteq; [|exact Hord].
        intros v Hv. apply elem_of_cons in Hv as [-> | Hv];
          [apply list_elem_of_here | do 2 apply list_elem_of_further; exact Hv]. }
      * left. repeat split; try assumption.
        intros [|k] ck Hk; simpl in Hk; [injection Hk as <-; exact Hlt | eauto].
      * right. exists (S k), ck. rewrite Hc, Hf.
        repeat split; [lia | exact Hk | exact Hlt' | |].
        -- intros [|k'] ck' Hk'; simpl in Hk'.
           ++ injection Hk' as <-.
              destruct (ltb (curr_dist o pj) (curr_dist o ck)) eqn:Hlow; [|reflexivity].
              destruct (Hord (curr_dist o pj) (curr_dist o ck) d)
                as (_ & Htrans & _); eauto.
              rewrite (Htrans Hlow Hlt') in Hlt. discriminate.
           ++ apply (Hmin k' ck' Hk').
        -- intros [|k'] ck' Hl Hk'; simpl in Hk'.
           ++ injection Hk' as <-.
              destruct (Hord (curr_dist o ck) d (curr_dist o pj)) as (_ & _ & Hco); eauto.
              destruct (Hco Hlt') as [Hok | Hbad]; [exact Hok | congruence].
           ++ apply (Hfirst k' ck'); [lia | exact Hk'].
Qed.

(** The two ways the search of one observation ends. *)
Lemma find_closest_ordered predicted o :
  ordered (compared predicted o) ->
  (find_closest predicted o = 0 /\
   forall k ck, predicted !! k = Some ck ->
     ltb (curr_dist o ck) (of_Z 100000) = false) \/
  (first_nearest_computed predicted o (find_closest predicted o) /\
   exists ck, predicted !! find_closest predicted o = Some ck /\
     ltb (curr_dist o ck) (of_Z 100000) = true).
Proof.
  intros Hord. unfold find_closest.
  destruct (closest_loop_ordered o predicted 0 (of_Z 100000) 0 Hord)
    as [(Hc & _ & Hall) | (k & ck & Hc & Hk & _ & Hlt & Hmin & Hfirst)].
  - left. split; assumption.
  - right. simpl in Hc. rewrite Hc. split; [|eauto].
    exists ck. split; [exact Hk|]. intros j cj Hj. split; [eauto|].
    intros Hjk. eauto.
Qed.

Lemma find_closest_first_nearest_computed predicted o :
  ordered (compared predicted o) ->
  (exists c, c ∈ predicted /\ ltb (curr_dist o c) (of_Z 100000) = true) ->
  first_nearest_computed predicted o (find_closest predicted o).
Proof.
  intros Hord (c & Hin & Hc).
  destruct (find_closest_ordered predicted o Hord) as [[_ Hall] | [H _]]; [|exact H].
  apply list_elem_of_lookup in Hin as [i Hi].
  rewrite (Hall i c Hi) in Hc. discriminate.
Qed.

(** X15: for every number type, when the comparisons order the values
    the search compares for each observation and some candidate is computed
    nearer than 100000.0, the call returns and every observation is
    rewritten to the index and coordinates of a candidate than which none is
    computed nearer, the first one among candidates computed equally near. *)
Theorem dataAssociation_first_nearest predicted observations :
  (forall o, o ∈ observations ->
     ordered (compared predicted o) /\
     exists c, c ∈ predicted /\ ltb (curr_dist o c) (of_Z 100000) = true) ->
  exists result,
    dataAssociation predicted observations = Done result /\
    Forall2 (fun o r => exists k ck,
               first_nearest_computed predicted o k /\ predicted !! k = Some ck /\
               r = mkObs (Z.of_nat k) (o_x ck) (o_y ck))
            observations result.
Proof.
  intros Hnear. destruct predicted as [|c0 predicted'] eqn:Hp.
  - destruct observations as [|o rest].
    + exists []. split; [reflexivity | constructor].
    + destruct (Hnear o) as (_ & c & Hc & _); [apply list_elem_of_here|].
      inversion Hc.
  - rewrite <- Hp in *. exists (map (matched predicted) observations).
    split; [apply dataAssociation_Done; congruence|].
    clear Hp. induction observations as [|o rest IH]; simpl; constructor.
    + destruct (Hnear o (list_elem_of_here _ _)) as [Hord Hc].
      assert (Hfn := find_closest_first_nearest_computed predicted o Hord Hc).
      destruct Hfn as (ck & Hk & Hmin).
      exists (find_closest predicted o), ck.
      split; [exists ck; auto|]. split; [exact Hk|].
      unfold matched. rewrite Hk. reflexivity.
    + apply IH. intros o' Ho'. apply Hnear. apply list_elem_of_further, Ho'.
Qed.

(** Matching an observation that carries the coordinates of a candidate. *)
Lemma curr_dist_coordinates o o' c c' :
  o_x o = o_x o' -> o_y o = o_y o' -> o_x c = o_x c' -> o_y c = o_y c' ->
  curr_dist o c = curr_dist o' c'.
Proof. unfold curr_dist. intros -> -> -> ->. reflexivity. Qed.

Lemma find_closest_coordinates predicted o o' :
  o_x o = o_x o' -> o_y o = o_y o' ->
  find_closest predicted o = find_closest predicted o'.
Proof. unfold find_closest. intros -> ->. reflexivity. Qed.

Lemma rematch_coordinates predicted k c :
  separated predicted -> predicted !! k = Some c ->
  exists j cj,
    find_closest predicted c = j /\ predicted !! j = Some cj /\
    o_x cj = o_x c /\ o_y cj = o_y c /\ j <= k /\
    forall i ci, i < j -> predicted !! i = Some ci ->
      ltb (curr_dist c cj) (curr_dist c ci) = true.
Proof.
  intros Hsep Hk.
  assert (Hin : c ∈ predicted) by apply (list_elem_of_lookup_2 _ _ _ Hk).
  destruct (Hsep c Hin) as (Hord & Hself & Hdiff).
  destruct (find_closest_first_nearest_computed predicted c Hord)
    as (cj & Hj & Hmin); [eauto|].
  destruct (Hmin k c Hk) as [Hle _].
  destruct (Hdiff cj (list_elem_of_lookup_2 _ _ _ Hj) Hle) as [Hx Hy].
  exists (find_closest predicted c), cj.
  repeat split; try assumption.
  - destruct (le_lt_dec (find_closest predicted c) k) as [Hok | Hlt]; [exact Hok|].
    destruct (Hmin k c Hk) as [_ Hfirst]. specialize (Hfirst Hlt).
    rewrite (curr_dist_coordinates c c cj c eq_refl eq_refl Hx Hy) in Hfirst.
    destruct (Hord (curr_dist c c) (curr_dist c c) (curr_dist c c)) as (Hirr & _);
      try (apply list_elem_of_further, (list_elem_of_fmap_2 (curr_dist c)), Hin).
    congruence.
  - intros i ci Hi Hci. apply (Hmin i ci Hci). exact Hi.
Qed.

Lemma matched_twice predicted o :
  separated predicted -> predicted <> [] ->
  o_x (matched predicted (matched predicted o)) = o_x (matched predicted o) /\
  o_y (matched predicted (matched predicted o)) = o_y (matched predicted o) /\
  (ordered (compared predicted o) ->
   matched predicted (matched predicted o) = matched predicted o).
Proof.
  intros Hsep Hne.
  destruct (lookup_lt_is_Some_2 predicted (find_closest predicted o)
              (find_closest_lt predicted o Hne)) as [c Hc].
  set (k := find_closest predicted o) in *.
  assert (Hm : matched predicted o = mkObs (Z.of_nat k) (o_x c) (o_y c)).
  { unfold matched. fold k. rewrite Hc. reflexivity. }
  destruct (rematch_coordinates predicted k c Hsep Hc)
    as (j & cj & Hj & Hcj & Hx & Hy & Hjk & Hfirst).
  assert (Hj' : find_closest predicted (matched predicted o) = j).
  { rewrite <- Hj. apply find_closest_coordinates; rewrite Hm; reflexivity. }
  assert (Hmm : matched predicted (matched predicted o) =
                mkObs (Z.of_nat j) (o_x cj) (o_y cj)).
  { unfold matched at 1. rewrite Hj', Hcj. reflexivity. }
  rewrite Hmm, Hm. cbn [o_x o_y]. split; [exact Hx|]. split; [exact Hy|].
  intros Hord. rewrite Hx, Hy. f_equal. f_equal.
  destruct (le_lt_eq_dec j k Hjk) as [Hlt | Heq]; [|exact Heq].
  exfalso.
  destruct (find_closest_ordered predicted o Hord) as [[H0 _] | [(ck & Hck & Hmin) _]].
  - fold k in H0. lia.
  - fold k in Hck, Hmin. assert (ck = c) as -> by congruence.
    destruct (Hmin j cj Hcj) as [_ Hfar]. specialize (Hfar Hlt).
    rewrite (curr_dist_coordinates o o cj c eq_refl eq_refl Hx Hy) in Hfar.
    destruct (Hord (curr_dist o c) (curr_dist o c) (curr_dist o c)) as (Hirr & _);
      try (apply list_elem_of_further, (list_elem_of_fmap_2 (curr_dist o)),
                 (list_elem_of_lookup_2 _ _ _ Hc)).
    congruence.
Qed.

(** X17: for every number type, when the computed distance tells the
    candidates apart, matching is idempotent on coordinates: once the
    observations have been rewritten to candidates, a second call against
    the same candidates returns and leaves every coordinate as it is; when
    the comparisons also order the values compared for the observations of
    the first call, it leaves the indices as they are too. *)
Theorem dataAssociation_coordinates_idempotent predicted observations result :
  separated predicted ->
  dataAssociation predicted observations = Done result ->
  exists result',
    dataAssociation predicted result = Done result' /\
    map o_x result' = map o_x result /\ map o_y result' = map o_y result /\
    ((forall o, o ∈ observations -> ordered (compared predicted o)) ->
     result' = result).
Proof.
  intros Hsep H.
  destruct (dataAssociation_cases predicted observations)
    as [(_ & _ & Hu) | Hd]; [congruence|].
  rewrite Hd in H. injection H as <-.
  destruct predicted as [|c0 predicted'] eqn:Hp.
  - destruct observations as [|o rest]; [|discriminate Hd].
    exists []. repeat split.
  - rewrite <- Hp in *. assert (Hne : predicted <> []) by congruence. clear Hp Hd.
    exists (map (matched predicted) (map (matched predicted) observations)).
    split; [apply dataAssociation_Done, Hne|].
    induction observations as [|o rest IH]; [repeat split|].
    destruct (matched_twice predicted o Hsep Hne) as (Hx & Hy & Hid).
    destruct IH as (IHx & IHy & IHid). cbn [map].
    rewrite Hx, Hy, IHx, IHy. repeat split.
    intros Hord. rewrite Hid, IHid; [reflexivity | |].
    + intros o' Ho'. apply Hord, list_elem_of_further, Ho'.
    + apply Hord, list_elem_of_here.
Qed.

End NearestComputed.

(** ** Nearest neighbour beyond the bound, over the reals *)

Section NearestMore.
Implicit Types (predicted observations : list (@LandmarkObs R)) (o c : @LandmarkObs R).

Lemma distance_nonneg o c : (0 <= distance o c)%R.
Proof. unfold distance. apply dist_nonneg. Qed.

Lemma distance_same_coordinates o c :
  o_x o = o_x c -> o_y o = o_y c -> distance o c = 0%R.
Proof.
  intros Hx Hy. unfold distance, dist. cbn. rewrite Hx, Hy.
  replace ((o_x c - o_x c) * (o_x c - o_x c) + (o_y c - o_y c) * (o_y c - o_y c))%R
    with 0%R by ring.
  apply sqrt_0.
Qed.

Lemma distance_zero_coordinates o c :
  distance o c = 0%R -> o_x c = o_x o /\ o_y c = o_y o.
Proof.
  unfold distance, dist. cbn. intros H.
  apply sqrt_eq_0 in H.
  2:{ apply Rplus_le_le_0_compat; apply Rle_0_sqr. }
  apply (Rplus_sqr_eq_0 (o_x c - o_x o) (o_y c - o_y o)) in H as [Hx Hy].
  split; lra.
Qed.

Lemma find_closest_beyond_bound predicted o :
  (forall c, c ∈ predicted -> (100000 <= distance o c)%R) ->
  find_closest predicted o = 0.
Proof.
  intros Hfar. unfold find_closest.
  destruct (closest_loop_spec o predicted 0 (of_Z 100000) 0) as [_ Hsel].
  destruct Hsel as [(Hc & _) | (k & ck & _ & Hk & Hd & Hlt & _)]; [exact Hc|].
  pose proof (Hfar ck (list_elem_of_lookup_2 _ _ _ Hk)) as Hge.
  rewrite <- Hd in Hlt. cbn [of_Z R_double] in Hlt. lra.
Qed.

(** X16: when no candidate is nearer than 100000.0 to an observation, the
    search never leaves its initial index and the observation is rewritten
    to candidate 0, whichever candidate is nearest. *)
Theorem dataAssociation_beyond_bound c0 predicted observations :
  (forall o c, o ∈ observations -> c ∈ c0 :: predicted ->
     (100000 <= distance o c)%R) ->
  dataAssociation (c0 :: predicted) observations =
  Done (map (fun _ => mkObs 0 (o_x c0) (o_y c0)) observations).
Proof.
  intros Hfar. rewrite dataAssociation_Done by discriminate. f_equal.
  induction observations as [|o rest IH]; [reflexivity|].
  cbn [map]. f_equal.
  - unfold matched. rewrite find_closest_beyond_bound; [reflexivity|].
    intros c Hc. apply Hfar; [apply list_elem_of_here | exact Hc].
  - apply IH. intros o' c Ho' Hc. apply Hfar; [|exact Hc].
    apply list_elem_of_further, Ho'.
Qed.

(** Over the reals the comparisons order all values, and the distance
    tells any candidates apart. *)
Lemma ordered_real (vs : list R) : ordered (D := R_double) vs.
Proof.
  intros a b c _ _ _. cbn [ltb R_double]. repeat split.
  - apply bool_decide_eq_false_2. lra.
  - intros Hab Hbc. apply bool_decide_eq_true in Hab, Hbc.
    apply bool_decide_eq_true_2. lra.
  - intros Hab. apply bool_decide_eq_true in Hab.
    destruct (Rlt_dec a c) as [Hac | Hac].
    + left. apply bool_decide_eq_true_2, Hac.
    + right. apply bool_decide_eq_true_2. lra.
Qed.

Lemma separated_real (predicted : list (@LandmarkObs R)) : separated predicted.
Proof.
  intros c Hc. split; [apply ordered_real|].
  assert (Hself : curr_dist c c = 0%R)
    by (apply (distance_same_coordinates c c); reflexivity).
  rewrite Hself. cbn [ltb of_Z R_double]. split.
  - apply bool_decide_eq_true_2. lra.
  - intros c' _ Hle. apply bool_decide_eq_false in Hle.
    pose proof (distance_nonneg c c') as Hpos.
    apply (distance_zero_coordinates c c').
    change (distance c c') with (curr_dist c c'). unfold distance in Hpos.
    change (dist (o_x c) (o_y c) (o_x c') (o_y c')) with (curr_dist c c') in Hpos.
    lra.
Qed.

End NearestMore.

(** ** [write] *)

Section WriteFile.
Context {F : Type} {D : Double F} (show : F -> string).
Implicit Types (p : @Particle F) (pf : @ParticleFilter F) (content : string).

Lemma string_app_nil_r (s : string) : s +:+ "" = s.
Proof.
  induction s as [|a s IH]; [reflexivity|].
  change (String a s +:+ "") with (String a (s +:+ "")).
  rewrite IH. reflexivity.
Qed.

Lemma string_app_assoc (s1 s2 s3 : string) : (s1 +:+ s2) +:+ s3 = s1 +:+ (s2 +:+ s3).
Proof.
  induction s1 as [|a s1 IH]; [reflexivity|].
  change ((String a s1 +:+ s2) +:+ s3) with (String a ((s1 +:+ s2) +:+ s3)).
  rewrite IH. reflexivity.
Qed.

Lemma write_lines_app (ps qs : list (@Particle F)) :
  write_lines show (ps ++ qs) = write_lines show ps +:+ write_lines show qs.
Proof.
  induction ps as [|p ps IH]; cbn [write_lines app]; [reflexivity|].
  rewrite IH, string_app_assoc. reflexivity.
Qed.

(** X21: on a particle set that satisfies the invariant [write] returns.
    When the file opens, it holds afterwards what it held before followed by
    one line per particle, in order; when it does not open, it is left as it
    was and nothing tells the caller. *)
Theorem write_appends_lines (opened : bool) content pf :
  wf pf ->
  write show opened content pf =
  Done (if opened then content +:+ write_lines show (particles pf) else content).
Proof.
  intros [Hlen _]. unfold write.
  destruct (for_loop_total
    (fun i out =>
       out = if opened then content +:+ write_lines show (take i (particles pf))
             else content)
    (write_body show opened pf) (num_particles pf) 0 content)
    as (out & Hloop & Hout).
  - destruct opened; [|reflexivity].
    cbn [take write_lines]. rewrite string_app_nil_r. reflexivity.
  - intros i out Hi ->. unfold write_body.
    destruct (lookup_lt_is_Some_2 (particles pf) i) as [p Hp]; [lia|].
    rewrite (load_lookup _ _ _ Hp). cbn [bind].
    eexists. split; [reflexivity|].
    destruct opened; [|reflexivity].
    rewrite (take_S_r _ _ _ Hp), write_lines_app, string_app_assoc.
    cbn [write_lines]. rewrite string_app_nil_r. reflexivity.
  - rewrite Hloop, Hout. cbn [Nat.add].
    rewrite take_ge by lia. reflexivity.
Qed.

End WriteFile.

(** ** No candidates *)

(** One particle, one observation and a map without landmarks: the
    particle has no landmark within sensor range. *)
Lemma dataAssociation_empty_candidates_witness :
  updateWeights 50%R (3 / 10, 3 / 10)%R [mkObs 0 0%R 0%R] (mkMap []) one_particle
  = Undefined.
Proof.
  apply (dataAssociation_empty_candidates (mkObs 0 0%R 0%R) []).
  - split; reflexivity.
  - exists (mkParticle 0 0%R 0%R 0%R 1%R).
    split; [apply list_elem_of_here | reflexivity].
Defined.

(** * The further properties on concrete inputs *)

(** The far candidates, on binary64 numbers: the observation is rewritten
    to a candidate that exists. *)
Lemma dataAssociation_names_candidates_witness :
  length [mkObs 0 (of_Z 300000) (of_Z 0 : PrimFloat.float)]
    = length [origin_observation (D := float_double)] /\
  Forall (names_candidate (far_candidates (D := float_double)))
    [mkObs 0 (of_Z 300000) (of_Z 0 : PrimFloat.float)].
Proof.
  apply (dataAssociation_names_candidates (D := float_double) far_candidates
           [origin_observation]).
  vm_compute. reflexivity.
Defined.

(** No observations, one particle. *)
Lemma updateWeights_without_observations_witness :
  exists pf',
    updateWeights 50%R (3 / 10, 3 / 10)%R [] origin_map one_particle = Done pf' /\
    particles pf' = map (set_weight (of_Z 1)) (particles one_particle) /\
    weights pf' = replicate (num_particles one_particle) (of_Z 1).
Proof.
  apply (updateWeights_without_observations 50%R (3 / 10, 3 / 10)%R origin_map
           one_particle).
  split; reflexivity.
Defined.

(** One observation, one particle, one landmark. *)
Lemma updateWeights_returns_iff_witness :
  (exists pf', updateWeights 50%R (3 / 10, 3 / 10)%R [mkObs 0 0%R 0%R]
                 origin_map one_particle = Done pf') <->
  [mkObs 0 0%R 0%R] = [] \/
  Forall (fun p => GetLandmarksWithinSensorRange p (landmark_list origin_map)
                     50%R [] <> []) (particles one_particle).
Proof.
  apply (updateWeights_returns_iff 50%R (3 / 10, 3 / 10)%R [mkObs 0 0%R 0%R]
           origin_map one_particle).
  split; reflexivity.
Defined.

(** One step from the origin. *)
Lemma prediction_keeps_ids_resets_weights_witness :
  exists pf',
    prediction (Rnd := scripted R) 1%R (0, 0, 0)%R 2%R 0%R one_particle = Done pf' /\
    num_particles pf' = 1 /\ is_initialized pf' = true /\
    map p_id (particles pf') = [0%Z] /\
    map p_weight (particles pf') = [1%R] /\ weights pf' = [1%R].
Proof.
  assert (Hwf : wf one_particle) by (split; reflexivity).
  destruct (prediction_returns (Rnd := scripted R) 1%R (0, 0, 0)%R 2%R 0%R
              one_particle Hwf) as [pf' H].
  exists pf'. split; [exact H|].
  apply (prediction_keeps_ids_resets_weights (Rnd := scripted R)
           1%R (0, 0, 0)%R 2%R 0%R one_particle pf' Hwf H).
Defined.

(** Both draws return index 1. *)
Lemma resample_draws_from_old_witness :
  (forall p, p ∈ [mkParticle 1 4%R 5%R 6%R 1%R; mkParticle 1 4%R 5%R 6%R 1%R] ->
     p ∈ particles second_heavy) /\
  (forall w, w ∈ [1%R; 1%R] ->
     exists p, p ∈ particles second_heavy /\ w = p_weight p).
Proof.
  apply (resample_draws_from_old (Rnd := scripted R) [1; 1] second_heavy
           (mkFilter 2 true
              [mkParticle 1 4%R 5%R 6%R 1%R; mkParticle 1 4%R 5%R 6%R 1%R]
              [1%R; 1%R])).
  reflexivity.
Defined.

(** Ranges of 1 m and 2 m. *)
Lemma GetLandmarksWithinSensorRange_monotone_witness :
  sublist
    (GetLandmarksWithinSensorRange (mkParticle 0 0%R 0%R 0%R 1%R)
       (landmark_list origin_map) 1%R [])
    (GetLandmarksWithinSensorRange (mkParticle 0 0%R 0%R 0%R 1%R)
       (landmark_list origin_map) 2%R []).
Proof.
  apply (GetLandmarksWithinSensorRange_monotone (mkParticle 0 0%R 0%R 0%R 1%R)
           (landmark_list origin_map) 1%R 2%R).
  lra.
Defined.

(** Two observations seen from the pose (1, 1, 2). *)
Lemma ConvertToParticleCoordinates_isometry_witness :
  length (ConvertToParticleCoordinates (mkParticle 0 1%R 1%R 2%R 1%R)
            [mkObs 0 1%R 0%R; mkObs 1 0%R 1%R]) = 2 /\
  exists c1 c2,
    ConvertToParticleCoordinates (mkParticle 0 1%R 1%R 2%R 1%R)
      [mkObs 0 1%R 0%R; mkObs 1 0%R 1%R] !! 0 = Some c1 /\
    ConvertToParticleCoordinates (mkParticle 0 1%R 1%R 2%R 1%R)
      [mkObs 0 1%R 0%R; mkObs 1 0%R 1%R] !! 1 = Some c2 /\
    o_id c1 = 0%Z /\ o_id c2 = 1%Z /\
    distance c1 c2 = distance (mkObs 0 1%R 0%R) (mkObs 1 0%R 1%R).
Proof.
  apply (ConvertToParticleCoordinates_isometry (mkParticle 0 1%R 1%R 2%R 1%R)
           [mkObs 0 1%R 0%R; mkObs 1 0%R 1%R] 0 1
           (mkObs 0 1%R 0%R) (mkObs 1 0%R 1%R)); reflexivity.
Defined.

(** Three candidates, two of them computed equally near. *)
Lemma dataAssociation_first_nearest_witness :
  dataAssociation three_candidates two_observations =
    Done [mkObs 1 (of_Z 0) (of_Z 2); mkObs 0 (of_Z 3) (of_Z 4)] /\
  ltb (dist (of_Z 0) (of_Z 0) (of_Z 2) (of_Z 0))
      (dist (of_Z 0) (of_Z 0) (of_Z 0) (of_Z 2 : PrimFloat.float)) = false /\
  ltb (dist (of_Z 0) (of_Z 0) (of_Z 0) (of_Z 2))
      (dist (of_Z 0) (of_Z 0) (of_Z 2) (of_Z 0 : PrimFloat.float)) = false /\
  exists result,
    dataAssociation three_candidates two_observations = Done result /\
    Forall2 (fun o r => exists k ck,
               first_nearest_computed three_candidates o k /\
               three_candidates !! k = Some ck /\
               r = mkObs (Z.of_nat k) (o_x ck) (o_y ck))
            two_observations result.
Proof.
  split; [vm_compute; reflexivity|]. split; [vm_compute; reflexivity|].
  split; [vm_compute; reflexivity|].
  apply (dataAssociation_first_nearest three_candidates two_observations).
  intros o Ho. each_member Ho.
  - split.
    + intros a b c Ha Hb Hc. each_member Ha; each_member Hb; each_member Hc;
        vm_compute; intuition congruence.
    + exists (mkObs 6 (of_Z 0) (of_Z 2)).
      split; [apply list_elem_of_further, list_elem_of_here | vm_compute; reflexivity].
  - split.
    + intros a b c Ha Hb Hc. each_member Ha; each_member Hb; each_member Hc;
        vm_compute; intuition congruence.
    + exists (mkObs 5 (of_Z 3) (of_Z 4)).
      split; [apply list_elem_of_here | vm_compute; reflexivity].
Defined.

(** The far candidates. *)
Lemma dataAssociation_beyond_bound_witness :
  dataAssociation [mkObs 1 300000%R 0%R; mkObs 2 200000%R 0%R] [mkObs 0 0%R 0%R] =
  Done (map (fun _ => mkObs 0 300000%R 0%R) [mkObs 0 0%R 0%R]).
Proof.
  apply (dataAssociation_beyond_bound (mkObs 1 300000%R 0%R)
           [mkObs 2 200000%R 0%R] [mkObs 0 0%R 0%R]).
  intros o c Ho Hc. apply list_elem_of_singleton in Ho as ->.
  apply elem_of_cons in Hc as [-> | Hc].
  - rewrite distance_on_axis; lra.
  - apply list_elem_of_singleton in Hc as ->. rewrite distance_on_axis; lra.
Defined.

(** The observations matched to two of three candidates, matched again. *)
Lemma dataAssociation_coordinates_idempotent_witness :
  dataAssociation three_candidates two_observations =
    Done [mkObs 1 (of_Z 0) (of_Z 2); mkObs 0 (of_Z 3) (of_Z 4)] /\
  exists result',
    dataAssociation three_candidates
      [mkObs 1 (of_Z 0) (of_Z 2); mkObs 0 (of_Z 3) (of_Z 4)] = Done result' /\
    map o_x result' = [of_Z 0; of_Z 3] /\ map o_y result' = [of_Z 2; of_Z 4] /\
    result' = [mkObs 1 (of_Z 0) (of_Z 2); mkObs 0 (of_Z 3) (of_Z 4)].
Proof.
  split; [vm_compute; reflexivity|].
  destruct (dataAssociation_coordinates_idempotent three_candidates two_observations
              [mkObs 1 (of_Z 0) (of_Z 2); mkObs 0 (of_Z 3) (of_Z 4)])
    as (result' & H & Hx & Hy & Hsame).
  - intros c Hc. each_member Hc.
    all: split;
      [intros a b c Ha Hb Hc; each_member Ha; each_member Hb; each_member Hc;
         vm_compute; intuition congruence|].
    all: split; [vm_compute; reflexivity|].
    all: intros c' Hc'; each_member Hc'; vm_compute; intros H;
      try discriminate H; split; reflexivity.
  - vm_compute. reflexivity.
  - exists result'. split; [exact H|]. split; [exact Hx|]. split; [exact Hy|].
    apply Hsame. intros o Ho. each_member Ho.
    all: intros a b c Ha Hb Hc; each_member Ha; each_member Hb; each_member Hc;
      vm_compute; intuition congruence.
Defined.

(** One particle written to an empty file. *)
Lemma write_appends_lines_witness :
  write (fun _ : R => "0") true "" one_particle =
  Done ("" +:+ write_lines (fun _ : R => "0") (particles one_particle)).
Proof.
  apply (write_appends_lines (fun _ : R => "0") true "" one_particle).
  split; reflexivity.
Defined.

(** ** The order of the observations, over the reals *)

Section ObservationOrder.
Implicit Types (p : @Particle R) (o : @LandmarkObs R).

(** The weight [UpdateParticleWeight] writes, as the product of densities. *)
Lemma UpdateParticleWeight_weight p (particle_index : nat) (sigma_x sigma_y : R)
    (observations means : list (@LandmarkObs R)) :
  length observations <= length means ->
  UpdateParticleWeight p particle_index (sigma_x, sigma_y) observations means =
  Done (set_weight (likelihood sigma_x sigma_y observations means) p).
Proof.
  intros Hlen. unfold UpdateParticleWeight. cbn [fst snd].
  pose proof (weight_loop_likelihood sigma_x sigma_y observations means [] 1%R) as H.
  cbn [length app] in H.
  cbn [of_Z mul div M_PI R_double R_libm].
  rewrite H by lia. cbn [bind]. rewrite Rmult_1_l. reflexivity.
Qed.

Lemma likelihood_matched (sigma_x sigma_y : R) (g : @LandmarkObs R -> @LandmarkObs R)
    (l : list (@LandmarkObs R)) :
  likelihood sigma_x sigma_y l (map g l) =
  fold_right (fun o acc => (gaussian_density sigma_x sigma_y o (g o) * acc)%R) 1%R l.
Proof.
  induction l as [|o l IH]; [reflexivity|].
  cbn [map likelihood fold_right]. rewrite IH. reflexivity.
Qed.

Lemma density_product_permutation (h : @LandmarkObs R -> R)
    (l l' : list (@LandmarkObs R)) :
  Permutation l l' ->
  fold_right (fun o acc => (h o * acc)%R) 1%R l =
  fold_right (fun o acc => (h o * acc)%R) 1%R l'.
Proof.
  induction 1 as [|x l l' _ IH|x y l|l l' l'' _ IH1 _ IH2]; cbn [fold_right].
  - reflexivity.
  - rewrite IH. reflexivity.
  - ring.
  - rewrite IH1. exact IH2.
Qed.

Lemma weigh_particle_permutation (sensor_range sigma_x sigma_y : R)
    (observations observations' : list (@LandmarkObs R))
    (map_landmarks : @Map R) (i : nat) p :
  Permutation observations observations' ->
  weigh_particle sensor_range (sigma_x, sigma_y) observations' map_landmarks i p =
  weigh_particle sensor_range (sigma_x, sigma_y) observations map_landmarks i p.
Proof.
  intros Hperm. unfold weigh_particle.
  set (remaining := GetLandmarksWithinSensorRange p (landmark_list map_landmarks)
                      sensor_range []).
  assert (Hconv : Permutation (ConvertToParticleCoordinates p observations)
                              (ConvertToParticleCoordinates p observations')).
  { unfold ConvertToParticleCoordinates. apply Permutation_map. exact Hperm. }
  set (conv := ConvertToParticleCoordinates p observations) in *.
  set (conv' := ConvertToParticleCoordinates p observations') in *.
  destruct (dataAssociation_cases remaining conv) as [(Hnil & Hne & Hu) | Hd];
    destruct (dataAssociation_cases remaining conv') as [(Hnil' & Hne' & Hu') | Hd'].
  - rewrite Hu, Hu'. reflexivity.
  - rewrite Hnil in Hd'. destruct conv' as [|c rest]; [|discriminate Hd'].
    apply Permutation_nil_r in Hconv. congruence.
  - rewrite Hnil' in Hd. destruct conv as [|c rest]; [|discriminate Hd].
    apply Permutation_nil in Hconv. congruence.
  - rewrite Hd, Hd'. cbn [bind].
    rewrite !UpdateParticleWeight_weight by (rewrite length_map; lia).
    rewrite !likelihood_matched.
    rewrite (density_product_permutation _ conv conv' Hconv). reflexivity.
Qed.

(** X22: the weights do not depend on the order in which the observations
    are given: on a permutation of the observations [updateWeights] does the
    same, returning the same particle set or running into the same read
    outside the candidates. *)
Theorem updateWeights_observation_order (sensor_range sigma_x sigma_y : R)
    (observations observations' : list (@LandmarkObs R))
    (map_landmarks : @Map R) (pf : @ParticleFilter R) :
  Permutation observations observations' ->
  updateWeights sensor_range (sigma_x, sigma_y) observations' map_landmarks pf =
  updateWeights sensor_range (sigma_x, sigma_y) observations map_landmarks pf.
Proof.
  intros Hperm. unfold updateWeights. apply for_loop_ext.
  intros i t _. unfold updateWeights_body.
  destruct (load i (particles t)) as [p| |]; cbn [bind]; try reflexivity.
  rewrite (weigh_particle_permutation _ _ _ _ _ _ _ _ Hperm). reflexivity.
Qed.

End ObservationOrder.

(** Two observations, swapped. *)
Lemma updateWeights_observation_order_witness :
  updateWeights 50%R (3 / 10, 3 / 10)%R [mkObs 1 1%R 0%R; mkObs 0 0%R 0%R]
    origin_map one_particle =
  updateWeights 50%R (3 / 10, 3 / 10)%R [mkObs 0 0%R 0%R; mkObs 1 1%R 0%R]
    origin_map one_particle.
Proof.
  apply (updateWeights_observation_order 50%R (3 / 10)%R (3 / 10)%R
           [mkObs 0 0%R 0%R; mkObs 1 1%R 0%R] [mkObs 1 1%R 0%R; mkObs 0 0%R 0%R]
           origin_map one_particle).
  apply perm_swap.
Defined.
